(** * node-geolite2: the postinstall download script

    A shallow embedding of [scripts/postinstall.js].  The script resolves
    the MaxMind credentials, builds the download URL of every selected
    edition, asks the server whether the local copy is stale, and unpacks
    the [.mmdb] entries of the downloaded archive into the [dbs] directory.

    The JavaScript is asynchronous but single threaded.  Its effects are
    modelled by explicit state passing over a [World]: the files on disk, the
    responses the network is going to deliver (an oracle tape, consumed one
    item per [https.request]), and the chronological trace of the effects the
    script performed.  The unpacking of an archive is an event loop over the
    events of its streams; an error that nothing handles ends the process and
    leaves [main] unsettled. *)

From stdpp Require Import gmap strings list fin_maps.
From Stdlib Require Import Ascii String QArith.

Local Close Scope Q_scope.
Local Open Scope string_scope.
Local Open Scope list_scope.

(** ** JavaScript values the script handles *)

(** A JS number as far as the script uses one: the two timestamps compared
    in [isOutdated].  [Date.parse] yields [NaN] or a number of milliseconds,
    [mtimeMs] a number of milliseconds with a fractional part; the script does
    no arithmetic on them, it only compares them. *)
Inductive JsNum :=
| NaN
| Num (q : Q).

(** [a < b] on JS numbers: false as soon as one side is [NaN]. *)
Definition js_lt (a b : JsNum) : bool :=
  match a, b with
  | Num x, Num y => (Qnum x * QDen y <? Qnum y * QDen x)%Z
  | _, _ => false
  end.

(** Truthiness of a value that is [undefined]/[null] or a string. *)
Definition truthy (v : option string) : bool :=
  match v with
  | Some s => negb (String.eqb s "")
  | None => false
  end.

(** [s.endsWith(suffix)]. *)
Definition endsWith (s suffix : string) : bool :=
  let n := String.length s in
  let m := String.length suffix in
  (m <=? n)%nat && String.eqb (String.substring (n - m) m s) suffix.

(** [Array.prototype.includes] on an array of strings. *)
Definition includes (l : list string) (x : string) : bool :=
  existsb (String.eqb x) l.

(** ** Node's [path] module (POSIX flavour) *)

(** The segments of a path between its slashes; never an empty list. *)
Fixpoint segments (p : string) : list string :=
  match p with
  | EmptyString => [EmptyString]
  | String c rest =>
      if Ascii.eqb c "/"%char then EmptyString :: segments rest
      else match segments rest with
           | seg :: segs => String c seg :: segs
           | [] => [String c EmptyString]
           end
  end.

Definition nonempty (s : string) : bool := negb (String.eqb s "").

(** [path.basename(p)]: the last portion of the path, trailing slashes
    ignored. *)
Definition path_basename (p : string) : string :=
  List.last (List.filter nonempty (segments p)) "".

(** The segment stack of [path.normalize]: [.] and empty segments vanish, [..]
    pops a segment unless there is none left to pop.  [stack] is kept in
    reverse. *)
Fixpoint normalize_segments (allowAboveRoot : bool) (stack : list string)
    (segs : list string) : list string :=
  match segs with
  | [] => rev stack
  | seg :: rest =>
      if String.eqb seg "" || String.eqb seg "." then
        normalize_segments allowAboveRoot stack rest
      else if String.eqb seg ".." then
        match stack with
        | top :: below =>
            if String.eqb top ".."
            then normalize_segments allowAboveRoot (seg :: stack) rest
            else normalize_segments allowAboveRoot below rest
        | [] =>
            if allowAboveRoot
            then normalize_segments allowAboveRoot [seg] rest
            else normalize_segments allowAboveRoot [] rest
        end
      else normalize_segments allowAboveRoot (seg :: stack) rest
  end.

Fixpoint join_with (sep : string) (l : list string) : string :=
  match l with
  | [] => ""
  | [x] => x
  | x :: rest => x +:+ sep +:+ join_with sep rest
  end.

Definition startsWithSlash (p : string) : bool :=
  match p with
  | String c _ => Ascii.eqb c "/"%char
  | EmptyString => false
  end.

(** [path.normalize(p)]. *)
Definition path_normalize (p : string) : string :=
  if String.eqb p "" then "." else
  let isAbsolute := startsWithSlash p in
  let trailingSeparator := endsWith p "/" in
  let body := join_with "/" (normalize_segments (negb isAbsolute) [] (segments p)) in
  if String.eqb body "" then
    (if isAbsolute then "/" else if trailingSeparator then "./" else ".")
  else
    let body := if trailingSeparator then body +:+ "/" else body in
    if isAbsolute then "/" +:+ body else body.

(** [path.join(...parts)]: the non-empty parts joined by a slash, then
    normalized. *)
Definition path_join (parts : list string) : string :=
  match List.filter nonempty parts with
  | [] => "."
  | kept => path_normalize (join_with "/" kept)
  end.

(** ** Responses, errors and the event loop's deliveries *)

(** What the event loop delivers while an archive is being unpacked: the
    events of the [tar.t()] stream, the events of the write streams opened
    for the entries, the [i]-th of them being the stream behind
    [entryPromises[i]], and an ['error'] of the streams that feed the tar
    stream (the response and gunzip), which the script does not listen to. *)
Inductive Event :=
| EvEntry (path : string)             (* 'entry' of the tar stream *)
| EvEnd                               (* 'end' of the tar stream *)
| EvError (err : string)              (* 'error' of the tar stream *)
| EvFinish (i : nat)                  (* 'finish' of the i-th write stream *)
| EvWriteError (i : nat) (err : string) (* 'error' of the i-th write stream *)
| EvOpen (i : nat)                    (* 'open' of the i-th write stream *)
| EvBodyError (err : string).         (* 'error' of the response or of gunzip *)

(** An [http.IncomingMessage].  [headers] has lower-cased keys, as Node
    delivers them.  [schedule] is the sequence of events the event loop
    delivers once the body is piped into gunzip and tar. *)
Record Response := {
  statusCode : Z;
  statusMessage : string;
  headers : gmap string string;
  schedule : list Event
}.

(** What the network does with one [https.request]: the callback receives a
    response, or the request emits ['error']. *)
Inductive NetResult :=
| NetResponse (response : Response)
| NetError (err : string).

(** The errors that travel through the promises of the script. *)
Inductive Error :=
| RequestFailed (url : string) (statusCode : Z) (statusMessage : string)
    (* new Error(`Request failed to ${url} - ${statusCode} ${statusMessage}`) *)
| Emitted (err : string)
    (* the error object an 'error' event carried *)
| SystemError (code : string)
    (* thrown by a synchronous fs call *)
| InvalidUrl (url : string).
    (* the TypeError [https.request] throws for a URL it does not accept *)

(** An options bag as [request] receives it.  A key is absent or present;
    [auth] when present is [null] ([None]) or a string. *)
Inductive Field (A : Type) :=
| Absent
| Present (a : A).
Arguments Absent {A}.
Arguments Present {A} a.

Record Options := {
  method : Field string;
  auth : Field (option string)
}.

(** [undefined] as an options bag: spreading it adds no key. *)
Definition noOptions : Options := {| method := Absent; auth := Absent |}.

(** ** Effects and the world *)

Inductive Effect :=
| HttpsRequest (url : string) (auth : option string) (method : Field string)
| ConsoleLog (msg : string)
| ConsoleError (msg : string)
| ConsoleErrorObject (e : Error)
| MkdirSync (path : string)
| CreateWriteStream (path : string)
| ProcessExit (code : Z)
| UncaughtError (e : Error).
    (* the report the runtime prints for an error nothing handles *)

Record World := {
  files : gmap string Q;      (* the paths that exist, with their mtimeMs *)
  tape : list NetResult;      (* what the network will answer, in order *)
  clock : Q;                  (* the time stamped on what the script creates *)
  trace : list Effect         (* the effects so far, oldest first *)
}.

Definition emit (e : Effect) (w : World) : World :=
  {| files := files w; tape := tape w; clock := clock w; trace := trace w ++ [e] |}.

Definition set_tape (tp : list NetResult) (w : World) : World :=
  {| files := files w; tape := tp; clock := clock w; trace := trace w |}.

Definition touch (p : string) (w : World) : World :=
  {| files := <[p := clock w]> (files w); tape := tape w; clock := clock w;
     trace := trace w |}.

Definition fs_existsSync (p : string) (w : World) : bool :=
  bool_decide (is_Some (files w !! p)).

(** An error that nothing handles (an ['error'] event without a listener, a
    rejected promise without a handler) ends the process: the runtime
    reports the error and exits with status 1.  This is what Node does by
    default, for rejected promises since version 15. *)
Definition crash (e : Error) (w : World) : World :=
  emit (ProcessExit 1) (emit (UncaughtError e) w).

(** The files a trace opened for writing, in order. *)
Fixpoint created (tr : list Effect) : list string :=
  match tr with
  | [] => []
  | CreateWriteStream p :: rest => p :: created rest
  | _ :: rest => created rest
  end.

(** ** Awaited computations *)

(** How an [await] ends: the promise is fulfilled, it is rejected, or it
    never settles (it is still pending when the events run out, or when the
    process ends). *)
Inductive Outcome (A : Type) :=
| Returned (a : A)
| Threw (e : Error)
| Pending.
Arguments Returned {A} a.
Arguments Threw {A} e.
Arguments Pending {A}.

Definition M (A : Type) : Type := World -> Outcome A * World.

Definition ret {A} (a : A) : M A := fun w => (Returned a, w).

Definition bind {A B} (m : M A) (k : A -> M B) : M B :=
  fun w =>
    match m w with
    | (Returned a, w') => k a w'
    | (Threw e, w') => (Threw e, w')
    | (Pending, w') => (Pending, w')
    end.

Definition perform (e : Effect) : M unit := fun w => (Returned tt, emit e w).

Declare Scope js_scope.
Delimit Scope js_scope with js.
Notation "'let!' x ':=' m 'in' k" := (bind m (fun x => k))
  (at level 10, x name, m at level 100, k at level 200) : js_scope.
Notation "'do!' m 'in' k" := (bind m (fun _ => k))
  (at level 10, m at level 100, k at level 200) : js_scope.

Definition fs_statSync_mtimeMs (p : string) : M JsNum :=
  fun w =>
    match files w !! p with
    | Some t => (Returned (Num t), w)
    | None => (Threw (SystemError "ENOENT"), w)
    end.

(** ** Promises of the extraction stage *)

Inductive PromiseState :=
| Unsettled
| Fulfilled
| Rejected (e : Error).

(** A promise settles once; later attempts are ignored, and so is an event
    for a stream that was never opened. *)
Definition settle (i : nat) (s : PromiseState) (ps : list PromiseState)
    : list PromiseState :=
  match ps !! i with
  | Some Unsettled => <[i := s]> ps
  | _ => ps
  end.

Fixpoint first_rejection (ps : list PromiseState) : option Error :=
  match ps with
  | [] => None
  | Rejected e :: _ => Some e
  | _ :: rest => first_rejection rest
  end.

Definition is_fulfilled (p : PromiseState) : bool :=
  match p with
  | Fulfilled => true
  | _ => false
  end.

(** [Promise.all(ps)] as the awaiting task sees it: rejected as soon as one
    member is, fulfilled once all members are, not settled otherwise. *)
Definition Promise_all (ps : list PromiseState) : Outcome unit :=
  match first_rejection ps with
  | Some e => Threw e
  | None => if forallb is_fulfilled ps then Returned tt else Pending
  end.

(** The file behind [entryPromises[i]]: the write streams of the extraction
    under way are the last ones the trace shows being created, one for each
    promise of the array. *)
Definition stream_path (i : nat) (entryPromises : list PromiseState)
    (w : World) : option string :=
  let opened := created (trace w) in
  if (i <? List.length entryPromises)%nat
  then opened !! (List.length opened - List.length entryPromises + i)
  else None.

(** The file of a write stream exists once the stream is open, with the
    time of the write as its mtime. *)
Definition written (i : nat) (entryPromises : list PromiseState) (w : World)
    : World :=
  match stream_path i entryPromises w with
  | Some dstFilename => touch dstFilename w
  | None => w
  end.

(** A write stream's ['error'] rejects its promise (line 129).  The
    rejection has a handler only if [Promise.all] already watches the
    promise, that is if it is one of the first [watched] ones. *)
Definition unhandled_rejection (ev : Event) (watched : nat)
    (entryPromises : list PromiseState) : option Error :=
  match ev with
  | EvWriteError i err =>
      match entryPromises !! i with
      | Some Unsettled =>
          if (i <? watched)%nat then None else Some (Emitted err)
      | _ => None
      end
  | _ => None
  end.

(** ** The script's functions *)

Section Postinstall.

(** [Date.parse] on a string, a builtin of the JS runtime. *)
Variable Date_parse : string -> JsNum.

(** Whether [https.request] accepts a URL string (line 64): the string
    parses as an absolute URL and its protocol is [https:]; for any other
    string the call throws a [TypeError].  The URLs [link] builds have a
    fixed scheme and host and are accepted, and the script calls [request]
    with those only (lines 98 and 117): the check decides what happens to
    the location of a redirect. *)
Variable https_accepts : string -> bool.

(** The module-level bindings the functions close over: [accountId] and
    [licenseKey] as resolved by lines 8-22 ([main] only runs with a truthy
    [licenseKey], line 24), [selected] as returned by [getSelectedDbs()], and
    [downloadPath] (line 58). *)
Variable accountId : option string.
Variable licenseKey : string.
Variable selected : list string.
Variable downloadPath : string.

(** [Date.parse(v)] for a header value that may be [undefined]:
    [undefined] does not parse as a date. *)
Definition Date_parse_value (v : option string) : JsNum :=
  match v with
  | Some s => Date_parse s
  | None => NaN
  end.

(** Lines 48-51. *)
Definition link (edition : string) : string :=
  if truthy accountId
  then "https://download.maxmind.com/geoip/databases/" +:+ edition
         +:+ "/download?suffix=tar.gz"
  else "https://download.maxmind.com/app/geoip_download?edition_id=" +:+ edition
         +:+ "&license_key=" +:+ licenseKey +:+ "&suffix=tar.gz".

(** Lines 54-56. *)
Definition editionIds : list string :=
  List.map (fun e => "GeoLite2-" +:+ e)
    (List.filter (fun e => includes selected e) ["City"; "Country"; "ASN"]).

(** The [auth] of the object handed to [https.request] (lines 67-70): the
    default computed from the credentials, overridden by an [auth] key of
    [options]. *)
Definition request_auth (options : Options) : option string :=
  match auth options with
  | Present a => a
  | Absent =>
      if truthy accountId
      then Some (default "" accountId +:+ ":" +:+ licenseKey)
      else None
  end.

(** The target of a redirect (line 79): a status in [300, 400) and a
    truthy [location] header. *)
Definition redirect_location (response : Response) : option string :=
  if ((300 <=? statusCode response) && (statusCode response <? 400))%Z
  then match headers response !! "location" with
       | Some loc => if truthy (Some loc) then Some loc else None
       | None => None
       end
  else None.

(** Lines 62-92, by recursion on what the network still has to deliver:
    every request sent consumes one item, a request with nothing left to
    receive never settles.  [url] is a URL [https.request] accepts.  The
    recursive call of line 80 passes the location of the redirect: if
    [https.request] does not accept it the call throws inside the promise's
    executor, no request is sent and the promise is rejected with the
    [TypeError]. *)
Fixpoint request_on (tp : list NetResult) (url : string) (options : Options)
    (w : World) : Outcome Response * World :=
  let w := emit (HttpsRequest url (request_auth options) (method options)) w in
  match tp with
  | [] => (Pending, w)
  | NetError err :: tp' => (Threw (Emitted err), set_tape tp' w)
  | NetResponse response :: tp' =>
      let w := set_tape tp' w in
      match redirect_location response with
      | Some location =>
          if https_accepts location then
            request_on tp' location
              {| method := method options; auth := Present None |} w
          else (Threw (InvalidUrl location), w)
      | None =>
          if negb (statusCode response =? 200)%Z
          then (Threw (RequestFailed url (statusCode response)
                         (statusMessage response)), w)
          else (Returned response, w)
      end
  end.

Definition request (url : string) (options : Options) : M Response :=
  fun w => request_on (tape w) url options w.

(** Lines 95-103. *)
Definition isOutdated (dbPath url : string) : M bool :=
  fun w =>
    if negb (fs_existsSync dbPath w) then (Returned true, w)
    else
      (let! response := request url {| method := Present "HEAD"; auth := Absent |} in
       let remoteLastModified :=
         Date_parse_value (headers response !! "last-modified") in
       let! localLastModified := fs_statSync_mtimeMs dbPath in
       ret (js_lt localLastModified remoteLastModified))%js w.

(** The ['entry'] listener, lines 122-130.  [fs.createWriteStream] returns
    the stream at once and opens the file later: the file appears with the
    stream's ['open']. *)
Definition on_entry (path : string) (entryPromises : list PromiseState)
    (w : World) : list PromiseState * World :=
  if endsWith path ".mmdb" then
    let dstFilename := path_join [downloadPath; path_basename path] in
    let w := emit (ConsoleLog ("writing " +:+ dstFilename +:+ " ...")) w in
    let w := emit (CreateWriteStream dstFilename) w in
    (entryPromises ++ [Unsettled], w)
  else (entryPromises, w).

(** What an event does to the array [entryPromises] and to the files.  A
    write stream that opens has created its file, one that finishes has
    written it; ['finish'] fulfils the stream's promise and ['error']
    rejects it (lines 128-129). *)
Definition deliver (ev : Event) (entryPromises : list PromiseState)
    (w : World) : list PromiseState * World :=
  match ev with
  | EvEntry path => on_entry path entryPromises w
  | EvOpen i => (entryPromises, written i entryPromises w)
  | EvFinish i => (settle i Fulfilled entryPromises, written i entryPromises w)
  | EvWriteError i err => (settle i (Rejected (Emitted err)) entryPromises, w)
  | EvEnd | EvError _ | EvBodyError _ => (entryPromises, w)
  end.

(** Line 134: [await Promise.all(entryPromises)].  [Promise.all] iterates
    the array when it is called, so it watches the first [n] promises, [n]
    being the length of the array at that moment; the rejection of a promise
    it does not watch has no handler.  The streams that feed the tar stream
    have ended before its ['end']: they emit no ['error'] any more. *)
Fixpoint await_all (sched : list Event) (n : nat)
    (entryPromises : list PromiseState) (w : World)
    : Outcome unit * World * list Event :=
  match Promise_all (take n entryPromises) with
  | Pending =>
      match sched with
      | [] => (Pending, w, [])
      | ev :: rest =>
          match unhandled_rejection ev n entryPromises with
          | Some e => (Pending, crash e w, rest)
          | None =>
              let '(ps, w') := deliver ev entryPromises w in
              await_all rest n ps w'
          end
      end
  | settled => (settled, w, sched)
  end.

(** Lines 119-133: [await new Promise(...)], fulfilled by ['end'] and
    rejected by ['error'] of the tar stream; then line 134.  While [main]
    awaits the tar stream nothing handles the promises of [entryPromises]
    yet: a write stream that fails then ends the process, and so does an
    ['error'] of the response or of gunzip.  [main] is left unsettled by
    that. *)
Fixpoint await_stream (sched : list Event) (entryPromises : list PromiseState)
    (w : World) : Outcome unit * World * list Event :=
  match sched with
  | [] => (Pending, w, [])
  | EvEnd :: rest => await_all rest (List.length entryPromises) entryPromises w
  | EvError err :: rest => (Threw (Emitted err), w, rest)
  | EvBodyError err :: rest => (Pending, crash (Emitted err) w, rest)
  | ev :: rest =>
      match unhandled_rejection ev 0 entryPromises with
      | Some e => (Pending, crash e w, rest)
      | None =>
          let '(ps, w') := deliver ev entryPromises w in
          await_stream rest ps w'
      end
  end.

(** Lines 118-134 for one response: the outcome of the two awaits, the
    world they leave, and the events not yet delivered at that point. *)
Definition extraction (response : Response) (w : World)
    : Outcome unit * World * list Event :=
  await_stream (schedule response) [] w.

Definition extract (response : Response) : M unit :=
  fun w => fst (extraction response w).

(** The body of the loop of [main], lines 108-134. *)
Definition main_iteration (editionId : string) : M unit :=
  (let dbPath := path_join [downloadPath; editionId +:+ ".mmdb"] in
   let! isOutdatedStatus := isOutdated dbPath (link editionId) in
   if negb isOutdatedStatus then
     perform (ConsoleLog (" > " +:+ editionId +:+ ": Is up to date, skipping download"))
   else
     do! perform (ConsoleLog (" > " +:+ editionId
                                +:+ ": Is either missing or outdated, downloading")) in
     let! response := request (link editionId) noOptions in
     extract response)%js.

(** The [for ... of] loop, lines 107-135. *)
Fixpoint main_loop (ids : list string) : M unit :=
  match ids with
  | [] => ret tt
  | editionId :: rest => (do! main_iteration editionId in main_loop rest)%js
  end.

(** Lines 105-136. *)
Definition main : M unit :=
  (do! perform (ConsoleLog "Downloading maxmind databases...") in
   main_loop editionIds)%js.

End Postinstall.

(** ** The top level of the script *)

(** How a call into [../utils] ends: with a value, or with an exception whose
    [message] the script prints. *)
Inductive Call (A : Type) :=
| Returns (a : A)
| Throws (message : string).
Arguments Returns {A} a.
Arguments Throws {A} message.

Definition newline : string := String (ascii_of_nat 10) "".
Definition dquote : string := String (ascii_of_nat 34) "".
Definition quoted (s : string) : string := dquote +:+ s +:+ dquote.

(** The template literal of lines 25-42. *)
Definition licenseKeyHelp : string :=
  join_with newline [
    "Error: License Key is not configured.";
    "";
    "  You need to signup for a _free_ Maxmind account to get a license key.";
    "  Go to https://www.maxmind.com/en/geolite2/signup, obtain your account ID and";
    "  license key and put them in the MAXMIND_ACCOUNT_ID and MAXMIND_LICENSE_KEY";
    "  environment variables.";
    "";
    "  If you do not have access to env vars, put this config in your package.json";
    "  file (at the root level) like this:";
    "";
    "  " +:+ quoted "geolite2" +:+ ": {";
    "    // specify the account id";
    "    " +:+ quoted "account-id" +:+ ": " +:+ quoted "<your account id>" +:+ ",";
    "    // specify the key";
    "    " +:+ quoted "license-key" +:+ ": " +:+ quoted "<your license key>" +:+ ",";
    "    // ... or specify the file where key is located:";
    "    " +:+ quoted "license-file" +:+ ": " +:+ quoted "maxmind-licence.key";
    "  }";
    ""
  ].

(** Lines 9-14 and 17-22: [try { x = f() } catch (e) { console.error(what);
    console.error(e.message) }]; [x] stays [undefined] when [f] throws. *)
Definition resolve (what : string) (call : Call (option string)) (w : World)
    : option string * World :=
  match call with
  | Returns v => (v, w)
  | Throws message => (None, emit (ConsoleError message) (emit (ConsoleError what) w))
  end.

(** Lines 138-146. *)
Definition settle_main (r : Outcome unit * World) : World :=
  match r with
  | (Returned _, w) => emit (ProcessExit 0) w
  | (Threw err, w) => emit (ProcessExit 1) (emit (ConsoleErrorObject err) w)
  | (Pending, w) => w
  end.

(** Line 60. *)
Definition ensure_directory (p : string) (w : World) : World :=
  if negb (fs_existsSync p w) then emit (MkdirSync p) (touch p w) else w.

(** The whole script.  [dirname] is [__dirname]; [getLicense], [getAccountId]
    and [getSelectedDbs] say how the three calls into [../utils] end. *)
Definition script (Date_parse : string -> JsNum)
    (https_accepts : string -> bool) (dirname : string)
    (getLicense getAccountId : Call (option string))
    (getSelectedDbs : list string) (w : World) : World :=
  let '(licenseKey, w) :=
    resolve "geolite2: Error retrieving Maxmind License Key" getLicense w in
  let '(accountId, w) :=
    resolve "geolite2: Error retrieving Maxmind Account ID" getAccountId w in
  if negb (truthy licenseKey) then
    emit (ProcessExit 1) (emit (ConsoleError licenseKeyHelp) w)
  else
    let downloadPath := path_join [dirname; ".."; "dbs"] in
    settle_main
      (main Date_parse https_accepts accountId (default "" licenseKey) getSelectedDbs
         downloadPath (ensure_directory downloadPath w)).

(** ** Vocabulary of the statements *)

(** The options of the staleness check, line 98. *)
Definition headOptions : Options := {| method := Present "HEAD"; auth := Absent |}.

(** What [request] makes of a response it does not follow (lines 87-91). *)
Definition final_outcome (url : string) (response : Response) : Outcome Response :=
  if (statusCode response =? 200)%Z then Returned response
  else Threw (RequestFailed url (statusCode response) (statusMessage response)).

(** Whether [request] follows a response (lines 79-85): it is a redirect,
    and to a location [https.request] accepts. *)
Definition followed (https_accepts : string -> bool) (response : Response) : bool :=
  match redirect_location response with
  | Some location => https_accepts location
  | None => false
  end.

(** What [request] makes of a response it does not follow, [url] being the
    URL of the request the response answers. *)
Definition chain_outcome (url : string) (response : Response) : Outcome Response :=
  match redirect_location response with
  | Some refused => Threw (InvalidUrl refused)
  | None => final_outcome url response
  end.

(** The requests re-issued for a chain of redirects. *)
Definition reissued (m : Field string) (locations : list string) : list Effect :=
  List.map (fun loc => HttpsRequest loc None m) locations.

(** The paths of the archive entries among some events. *)
Fixpoint entry_paths (evs : list Event) : list string :=
  match evs with
  | [] => []
  | EvEntry p :: rest => p :: entry_paths rest
  | _ :: rest => entry_paths rest
  end.

Definition is_mmdb (p : string) : bool := endsWith p ".mmdb".

(** The number of write streams the events have opened, that is the length
    [entryPromises] has reached. *)
Definition registered (evs : list Event) : nat :=
  List.length (List.filter is_mmdb (entry_paths evs)).

(** A tar stream emits no entry after its ['end']. *)
Fixpoint entries_before_end (evs : list Event) : bool :=
  match evs with
  | [] => true
  | EvEnd :: rest => match entry_paths rest with [] => true | _ => false end
  | _ :: rest => entries_before_end rest
  end.

(** What links the events delivered so far to the array [entryPromises]:
    the array has one promise per write stream opened, and a promise is
    fulfilled only if its stream's ['finish'] was delivered. *)
Definition tracks (delivered : list Event) (ps : list PromiseState) : Prop :=
  List.length ps = registered delivered
  /\ forall i, ps !! i = Some Fulfilled -> In (EvFinish i) delivered.

(** Where the entry at [path] is written (line 124). *)
Definition destination (downloadPath path : string) : string :=
  path_join [downloadPath; path_basename path].

(** The files the entries at [paths] are written to, in order: one for
    each entry that is a database. *)
Definition outputs (downloadPath : string) (paths : list string) : list string :=
  List.map (destination downloadPath) (List.filter is_mmdb paths).

(** What links world [w] and the array [ps] to the world [w0] the extraction
    started in, the events [delivered] having gone through the listeners: a
    write stream was created for each database entry, in order, and for
    nothing else; a file differs from what it was only if it is one of these
    and was written; and the file of a fulfilled promise was written. *)
Definition unpacking (downloadPath : string) (w0 : World)
    (delivered : list Event) (ps : list PromiseState) (w : World) : Prop :=
  let outs := outputs downloadPath (entry_paths delivered) in
  created (trace w) = created (trace w0) ++ outs
  /\ List.length ps = registered delivered
  /\ clock w = clock w0
  /\ (forall q, files w !! q = files w0 !! q
                \/ (In q outs /\ files w !! q = Some (clock w0)))
  /\ (forall i, ps !! i = Some Fulfilled ->
                exists q, outs !! i = Some q /\ files w !! q = Some (clock w0)).

(** Every redirect the network may still answer with leads to a request
    that satisfies [P]. *)
Definition redirects_ok (P : Effect -> Prop) (w : World) : Prop :=
  forall r loc m,
    In (NetResponse r) (tape w) -> redirect_location r = Some loc ->
    P (HttpsRequest loc None m).

(** The writes the entries at [paths] lead to satisfy [P]. *)
Definition writes_ok (P : Effect -> Prop) (downloadPath : string)
    (paths : list string) : Prop :=
  forall p, In p paths -> is_mmdb p = true ->
            P (CreateWriteStream (destination downloadPath p)).

(** Every archive the network may still deliver leads to writes that
    satisfy [P]. *)
Definition archives_ok (P : Effect -> Prop) (downloadPath : string) (w : World)
    : Prop :=
  forall r, In (NetResponse r) (tape w) ->
            writes_ok P downloadPath (entry_paths (schedule r)).

(** World [w'] comes after world [w]: its trace extends the trace of [w] by
    effects that satisfy [P], and the network has only responses left that
    it had in [w]. *)
Definition evolves (P : Effect -> Prop) (w w' : World) : Prop :=
  (exists d, trace w' = trace w ++ d /\ Forall P d)
  /\ (forall r, In r (tape w') -> In r (tape w)).

(** Where the requests and the files of a run come from: a request goes to
    the URL of one of the editions of the run or to the location a redirect
    of the network gave, and a file is the destination of a database entry of
    an archive the network delivered. *)
Definition from_run (accountId : option string) (licenseKey : string)
    (selected : list string) (downloadPath : string) (w : World) (e : Effect)
    : Prop :=
  match e with
  | HttpsRequest url _ _ =>
      (exists id, In id (editionIds selected) /\ url = link accountId licenseKey id)
      \/ (exists r, In (NetResponse r) (tape w) /\ redirect_location r = Some url)
  | CreateWriteStream q =>
      exists r p, In (NetResponse r) (tape w) /\ In p (entry_paths (schedule r))
                  /\ is_mmdb p = true /\ q = destination downloadPath p
  | _ => True
  end.

(** ** Sample runs *)

Definition sample_response (code : Z) (message : string)
    (hdrs : list (string * string)) (sched : list Event) : Response :=
  {| statusCode := code; statusMessage := message;
     headers := list_to_map hdrs; schedule := sched |}.

Definition sample_world (tp : list NetResult) (fs : list (string * Q)) : World :=
  {| files := list_to_map fs; tape := tp; clock := 1700000000000%Q; trace := [] |}.

Definition found (loc : string) : Response :=
  sample_response 302 "Found" [("location", loc)] [].

Definition ok200 : Response := sample_response 200 "OK" [] [].

Definition noContent204 : Response := sample_response 204 "No Content" [] [].

(** The network answers two redirects in a row, then 200. *)
Definition two_redirects : World :=
  sample_world
    [NetResponse (found "https://b.example/");
     NetResponse (found "https://c.example/");
     NetResponse ok200] [].

(** The network answers 204. *)
Definition answers_204 : World := sample_world [NetResponse noContent204] [].

(** The City database is on disk; the server answers the HEAD request with
    200 and no [last-modified] header. *)
Definition city_on_disk : World :=
  sample_world [NetResponse ok200] [("/pkg/dbs/GeoLite2-City.mmdb", 1600000000000.5%Q)].

(** An archive with two databases and a text file, the second database
    finishing before the first, and the first only after ['end']. *)
Definition archive : Response :=
  sample_response 200 "OK" []
    [EvEntry "GeoLite2-City_20240101/COPYRIGHT.txt";
     EvEntry "GeoLite2-City_20240101/GeoLite2-City.mmdb";
     EvEntry "GeoLite2-City_20240101/GeoLite2-City-Blocks.mmdb";
     EvFinish 1; EvEnd; EvFinish 0].

Definition notFound404 : Response := sample_response 404 "Not Found" [] [].

(** Nothing on disk; the City archive arrives, the request for Country is
    answered 404. *)
Definition city_then_404 : World :=
  sample_world [NetResponse archive; NetResponse notFound404] [].

Definition no_date : string -> JsNum := fun _ => NaN.

(** What [https.request] accepts among the URLs of the sample runs: the
    absolute ones with the [https:] scheme. *)
Definition sample_accepts (url : string) : bool := String.prefix "https://" url.

(** ** Further vocabulary and sample runs *)

(** A request re-issued for a redirect of the tape [tp]: to the location of
    one of its responses, with [auth] cleared and the method [m]. *)
Definition reissue_of (tp : list NetResult) (m : Field string) (e : Effect) : Prop :=
  exists r loc,
    In (NetResponse r) tp /\ redirect_location r = Some loc
    /\ e = HttpsRequest loc None m.

(** The network answers a redirect, then the connection is reset. *)
Definition reset_after_redirect : World :=
  sample_world [NetResponse (found "https://b.example/"); NetError "ECONNRESET"] [].

(** A 302 without a [location] header. *)
Definition found_nowhere : Response := sample_response 302 "Found" [] [].

Definition answers_302_nowhere : World := sample_world [NetResponse found_nowhere] [].

(** ['end'] or ['error'] of the tar stream: what settles the promise of
    lines 119-133; or an ['error'] of the streams that feed it, which ends
    the process. *)
Definition is_stream_end (ev : Event) : bool :=
  match ev with
  | EvEnd | EvError _ | EvBodyError _ => true
  | _ => false
  end.

(** The listeners run over a sequence of events. *)
Fixpoint deliver_all (downloadPath : string) (evs : list Event)
    (ps : list PromiseState) (w : World) : list PromiseState * World :=
  match evs with
  | [] => (ps, w)
  | ev :: rest =>
      let '(ps1, w1) := deliver downloadPath ev ps w in
      deliver_all downloadPath rest ps1 w1
  end.

(** What the history [evs] makes of write stream [i], [opened] streams
    being open at its start: the first ['finish'] or ['error'] the stream
    emits once it is open settles it. *)
Fixpoint settling (i : nat) (opened : nat) (evs : list Event) : PromiseState :=
  match evs with
  | [] => Unsettled
  | EvEntry p :: rest => settling i (if is_mmdb p then S opened else opened) rest
  | EvFinish j :: rest =>
      if (j =? i)%nat && (i <? opened)%nat then Fulfilled else settling i opened rest
  | EvWriteError j err :: rest =>
      if (j =? i)%nat && (i <? opened)%nat then Rejected (Emitted err)
      else settling i opened rest
  | _ :: rest => settling i opened rest
  end.

(** No write stream fails while nothing handles its promise: a stream the
    history [evs] leaves rejected had settled before, in the array [ps] the
    history starts from. *)
Definition no_early_failure (ps : list PromiseState) (evs : list Event) : Prop :=
  forall i e,
    settling i (List.length ps) evs = Rejected e ->
    exists s, ps !! i = Some s /\ s <> Unsettled.

(** The rejected promises of [ps] were rejected by the ['error'] of their
    write stream, among the events [delivered]. *)
Definition rejections_from (delivered : list Event) (ps : list PromiseState)
    : Prop :=
  forall i e,
    ps !! i = Some (Rejected e) ->
    exists err, e = Emitted err /\ In (EvWriteError i err) delivered.

(** A corrupt archive: the tar stream fails after the first database was
    opened and written. *)
Definition corrupt_archive : Response :=
  sample_response 200 "OK" []
    [EvEntry "GeoLite2-City_20240101/GeoLite2-City.mmdb"; EvFinish 0;
     EvError "TAR_BAD_ARCHIVE"; EvEnd].

(** An archive whose stream never ends. *)
Definition stalled_archive : Response :=
  sample_response 200 "OK" []
    [EvEntry "GeoLite2-City_20240101/GeoLite2-City.mmdb"; EvFinish 0].

(** An archive without a database. *)
Definition text_archive : Response :=
  sample_response 200 "OK" []
    [EvEntry "GeoLite2-City_20240101/COPYRIGHT.txt";
     EvEntry "GeoLite2-City_20240101/LICENSE.txt"; EvEnd].

(** The disk fills up while the first database is written, before the
    tar stream has ended. *)
Definition disk_full_archive : Response :=
  sample_response 200 "OK" []
    [EvEntry "GeoLite2-City_20240101/GeoLite2-City.mmdb"; EvOpen 0;
     EvEntry "GeoLite2-City_20240101/GeoLite2-City-Blocks.mmdb"; EvOpen 1;
     EvFinish 1; EvWriteError 0 "ENOSPC"; EvEnd].

(** The disk fills up while the first database is written, the tar stream
    having ended. *)
Definition late_disk_full_archive : Response :=
  sample_response 200 "OK" []
    [EvEntry "GeoLite2-City_20240101/GeoLite2-City.mmdb"; EvOpen 0;
     EvEntry "GeoLite2-City_20240101/GeoLite2-City-Blocks.mmdb"; EvOpen 1;
     EvFinish 1; EvEnd; EvWriteError 0 "ENOSPC"].

(** The body of the response breaks off: gunzip reports the truncated
    input. *)
Definition truncated_archive : Response :=
  sample_response 200 "OK" []
    [EvEntry "GeoLite2-City_20240101/GeoLite2-City.mmdb"; EvOpen 0;
     EvBodyError "Z_BUF_ERROR"].

(** The destination of the database is a directory: the write stream
    fails to open, after the tar stream has ended. *)
Definition unwritable_archive : Response :=
  sample_response 200 "OK" []
    [EvEntry "GeoLite2-City_20240101/GeoLite2-City.mmdb"; EvEnd;
     EvWriteError 0 "EISDIR"].

(** The archive the server sends for City holds the Country database. *)
Definition country_archive : Response :=
  sample_response 200 "OK" []
    [EvEntry "GeoLite2-Country_20240101/GeoLite2-Country.mmdb"; EvOpen 0;
     EvFinish 0; EvEnd].

(** Nothing on disk; the request for City is redirected to the URL of
    Country, which answers with its archive. *)
Definition city_redirected_to_country : World :=
  sample_world
    [NetResponse (found (link None "KEY" "GeoLite2-Country"));
     NetResponse country_archive] [].

(** The network redirects to a relative location. *)
Definition answers_relative_redirect : World :=
  sample_world [NetResponse (found "/geoip/next"); NetResponse ok200] [].

(** A [Date.parse] that knows one date. *)
Definition sample_Date_parse (v : string) : JsNum :=
  if String.eqb v "Tue, 02 Jan 2024 00:00:00 GMT" then Num 1704153600000%Q else NaN.

Definition head_2024 : Response :=
  sample_response 200 "OK" [("last-modified", "Tue, 02 Jan 2024 00:00:00 GMT")] [].

(** The City database on disk dates from 2020 and the server's from 2024:
    the HEAD request is answered, then the archive arrives. *)
Definition stale_city : World :=
  sample_world [NetResponse head_2024; NetResponse archive]
    [("/pkg/dbs/GeoLite2-City.mmdb", 1600000000000.5%Q)].

(** The City database on disk is newer than the server's. *)
Definition fresh_city : World :=
  sample_world [NetResponse head_2024; NetResponse archive]
    [("/pkg/dbs/GeoLite2-City.mmdb", 1710000000000%Q)].

(** Nothing on disk, and the server answers 404. *)
Definition nothing_then_404 : World := sample_world [NetResponse notFound404] [].

(** World [w'] comes after world [w] and differs from it, as far as files
    go, at most at the directory [dir] and at the files opened for writing
    in between; no file is removed. *)
Definition preserves (dir : string) (w w' : World) : Prop :=
  exists d,
    trace w' = trace w ++ d
    /\ (forall p, p <> dir -> ~ In p (created d) -> files w' !! p = files w !! p)
    /\ (forall p, is_Some (files w !! p) -> is_Some (files w' !! p)).


(** Whether a string contains a slash. *)
Fixpoint has_slash (s : string) : bool :=
  match s with
  | EmptyString => false
  | String c rest => Ascii.eqb c "/"%char || has_slash rest
  end.

(** A segment that names something: not empty, without a slash, and neither
    [.] nor [..]. *)
Definition proper (seg : string) : bool :=
  nonempty seg && negb (has_slash seg)
  && negb (String.eqb seg ".") && negb (String.eqb seg "..").

(** * Properties *)

(** ** The world and the monad *)

Lemma trace_emit e w : trace (emit e w) = trace w ++ [e].
Proof. reflexivity. Qed.

Lemma tape_emit e w : tape (emit e w) = tape w.
Proof. reflexivity. Qed.

Lemma files_emit e w : files (emit e w) = files w.
Proof. reflexivity. Qed.

Lemma fs_existsSync_true p w :
  fs_existsSync p w = true <-> is_Some (files w !! p).
Proof. unfold fs_existsSync. apply bool_decide_eq_true. Qed.

Lemma fs_existsSync_None p w :
  files w !! p = None -> fs_existsSync p w = false.
Proof.
  intros H. unfold fs_existsSync. apply bool_decide_eq_false.
  rewrite H. intros [x Hx]. discriminate.
Qed.

Lemma fs_existsSync_Some p w t :
  files w !! p = Some t -> fs_existsSync p w = true.
Proof. intros H. apply fs_existsSync_true. rewrite H. eauto. Qed.

Lemma js_lt_Num x y : js_lt (Num x) (Num y) = true <-> (x < y)%Q.
Proof. unfold js_lt, Qlt. apply Z.ltb_lt. Qed.

Lemma js_lt_NaN_r a : js_lt a NaN = false.
Proof. destruct a; reflexivity. Qed.

Lemma last_shift {A} (l : list A) (x d : A) :
  List.last (x :: l) d = List.last l x.
Proof.
  revert x d. induction l as [|a l IH]; intros x d; [reflexivity|].
  change (List.last (x :: a :: l) d) with (List.last (a :: l) d).
  rewrite (IH a d), (IH a x). reflexivity.
Qed.

Section Properties.

Variable Date_parse : string -> JsNum.
Variable https_accepts : string -> bool.
Variable accountId : option string.
Variable licenseKey : string.
Variable downloadPath : string.

Local Abbreviation link := (link accountId licenseKey).
Local Abbreviation request_auth := (request_auth accountId licenseKey).
Local Abbreviation request_on := (request_on https_accepts accountId licenseKey).
Local Abbreviation request := (request https_accepts accountId licenseKey).
Local Abbreviation isOutdated :=
  (isOutdated Date_parse https_accepts accountId licenseKey).
Local Abbreviation on_entry := (on_entry downloadPath).
Local Abbreviation deliver := (deliver downloadPath).
Local Abbreviation await_all := (await_all downloadPath).
Local Abbreviation await_stream := (await_stream downloadPath).
Local Abbreviation extraction := (extraction downloadPath).
Local Abbreviation extract := (extract downloadPath).
Local Abbreviation main_iteration :=
  (main_iteration Date_parse https_accepts accountId licenseKey downloadPath).
Local Abbreviation main_loop :=
  (main_loop Date_parse https_accepts accountId licenseKey downloadPath).

(** *** [request] *)

Lemma request_auth_cleared m :
  request_auth {| method := m; auth := Present None |} = None.
Proof. reflexivity. Qed.

(** The first thing [request] does is to send the request it was asked
    for. *)
Lemma request_on_first_effect tp url options w :
  exists more,
    trace (snd (request_on tp url options w)) =
    trace w ++ HttpsRequest url (request_auth options) (method options) :: more.
Proof.
  revert url options w. induction tp as [|[response|err] tp IH]; intros url options w.
  - exists []. reflexivity.
  - simpl. destruct (redirect_location response) as [loc|].
    + destruct (https_accepts loc); [|exists []; reflexivity].
      destruct (IH loc {| method := method options; auth := Present None |}
                  (set_tape tp (emit (HttpsRequest url (request_auth options)
                                        (method options)) w))) as [more Hmore].
      rewrite Hmore. simpl. rewrite <- app_assoc. simpl. eauto.
    + destruct (negb _); exists []; reflexivity.
  - exists []. reflexivity.
Qed.

(** A chain of redirects to locations [https.request] accepts, followed by
    a response that [request] does not follow: [request] follows the chain
    to its end, consuming one response per request. *)
Lemma request_on_chain hops :
  forall locations url options w final tp',
    Forall2 (fun r loc => redirect_location r = Some loc) hops locations ->
    Forall (fun loc => https_accepts loc = true) locations ->
    followed https_accepts final = false ->
    request_on (List.map NetResponse hops ++ NetResponse final :: tp') url options w =
      (chain_outcome (List.last locations url) final,
       {| files := files w; tape := tp'; clock := clock w;
          trace := trace w ++ HttpsRequest url (request_auth options) (method options)
                     :: reissued (method options) locations |}).
Proof.
  induction hops as [|hop hops IH];
    intros locations url options w final tp' Hchain Hacc Hfinal.
  - inversion Hchain; subst. simpl. unfold chain_outcome, followed in *.
    destruct (redirect_location final) as [loc|].
    + rewrite Hfinal. reflexivity.
    + unfold final_outcome. destruct (statusCode final =? 200)%Z; reflexivity.
  - inversion Hchain as [|h loc hs locs Hloc Hrest]; subst.
    inversion Hacc as [|loc' locs' Hok Hoks]; subst.
    cbn [List.map app request_on]. rewrite Hloc, Hok.
    rewrite (IH locs loc _ _ final tp' Hrest Hoks Hfinal).
    f_equal.
    + f_equal. symmetry. apply last_shift.
    + cbn. rewrite <- app_assoc. reflexivity.
Qed.

Lemma request_on_files tp url options w :
  files (snd (request_on tp url options w)) = files w.
Proof.
  revert url options w. induction tp as [|[response|err] tp IH]; intros url options w;
    simpl; try reflexivity.
  destruct (redirect_location response) as [loc|].
  - destruct (https_accepts loc); [rewrite IH|]; reflexivity.
  - destruct (negb _); reflexivity.
Qed.

(** C1 (amended): [request] follows every redirect whose location
    [https.request] accepts, not only the first.  For a URL that
    [https.request] accepts: when the network answers
    with any number of 3xx responses that carry a non-empty [location]
    which [https.request] accepts, and then with a response that [request]
    does not follow, [request] sends the request it was asked for and then
    one request per redirect, to that redirect's location, with the same
    method and with [auth] cleared; it consumes exactly these responses.  If
    the response after the chain is no redirect it is the final one; if it
    is a redirect to a location [https.request] does not accept, no request
    is sent for it and [request] fails with the [TypeError] of that call. *)
Theorem request_follows_every_redirect hops locations url options w final tp' :
  https_accepts url = true ->
  Forall2 (fun r loc => redirect_location r = Some loc) hops locations ->
  Forall (fun loc => https_accepts loc = true) locations ->
  followed https_accepts final = false ->
  tape w = List.map NetResponse hops ++ NetResponse final :: tp' ->
  trace (snd (request url options w)) =
    trace w ++ HttpsRequest url (request_auth options) (method options)
      :: List.map (fun loc => HttpsRequest loc None (method options)) locations
  /\ tape (snd (request url options w)) = tp'
  /\ fst (request url options w) =
       match redirect_location final with
       | Some refused => Threw (InvalidUrl refused)
       | None => final_outcome (List.last locations url) final
       end.
Proof.
  intros _ Hchain Hacc Hfinal Htape. unfold request. rewrite Htape.
  rewrite (request_on_chain hops locations url options w final tp' Hchain Hacc Hfinal).
  repeat split.
Qed.

(** C2 (amended): after the redirects are resolved (their locations being
    ones [https.request] accepts), [request] returns the final response
    exactly when its status is 200, and otherwise throws: when the response
    is no redirect, the error that carries the URL of the last request, the
    status code and the status message; a 2xx status other than 200 is an
    error too. *)
Theorem request_returns_iff_200 hops locations url options w final tp' :
  https_accepts url = true ->
  Forall2 (fun r loc => redirect_location r = Some loc) hops locations ->
  Forall (fun loc => https_accepts loc = true) locations ->
  followed https_accepts final = false ->
  tape w = List.map NetResponse hops ++ NetResponse final :: tp' ->
  (statusCode final = 200%Z -> fst (request url options w) = Returned final)
  /\ (statusCode final <> 200%Z ->
      exists e, fst (request url options w) = Threw e
                /\ (redirect_location final = None ->
                    e = RequestFailed (List.last locations url) (statusCode final)
                          (statusMessage final)))
  /\ (forall response, fst (request url options w) = Returned response ->
        response = final /\ statusCode final = 200%Z).
Proof.
  intros _ Hchain Hacc Hfinal Htape. unfold request. rewrite Htape.
  rewrite (request_on_chain hops locations url options w final tp' Hchain Hacc Hfinal).
  cbn [fst]. unfold chain_outcome, final_outcome.
  destruct (redirect_location final) as [refused|] eqn:Hloc.
  - assert (Hne : statusCode final <> 200%Z).
    { intros Heq. unfold redirect_location in Hloc. rewrite Heq in Hloc.
      discriminate. }
    split; [contradiction|]. split; [|discriminate].
    intros _. eexists. split; [reflexivity|discriminate].
  - destruct (Z.eqb_spec (statusCode final) 200) as [Heq|Hne].
    + split; [reflexivity|]. split; [contradiction|].
      intros response [= <-]. split; [reflexivity|exact Heq].
    + split; [contradiction|]. split; [|discriminate].
      intros _. eexists. split; reflexivity.
Qed.

(** *** [isOutdated] *)

Lemma isOutdated_missing dbPath url w :
  files w !! dbPath = None -> isOutdated dbPath url w = (Returned true, w).
Proof.
  intros Hfile. unfold isOutdated. rewrite (fs_existsSync_None _ _ Hfile). reflexivity.
Qed.

Lemma isOutdated_present dbPath url w mtime :
  files w !! dbPath = Some mtime ->
  isOutdated dbPath url w =
    match request url headOptions w with
    | (Returned response, w1) =>
        (Returned (js_lt (Num mtime)
                     (Date_parse_value Date_parse (headers response !! "last-modified"))),
         w1)
    | (Threw e, w1) => (Threw e, w1)
    | (Pending, w1) => (Pending, w1)
    end.
Proof.
  intros Hfile. unfold isOutdated. rewrite (fs_existsSync_Some _ _ _ Hfile). cbn [negb].
  unfold bind. change {| method := Present "HEAD"; auth := Absent |} with headOptions.
  pose proof (request_on_files (tape w) url headOptions w) as Hfiles.
  fold (request url headOptions w) in Hfiles.
  destruct (request url headOptions w) as [[response|e|] w1]; try reflexivity.
  cbn [snd] in Hfiles. unfold fs_statSync_mtimeMs. rewrite Hfiles, Hfile. reflexivity.
Qed.

(** C4: when the local file does not exist, [isOutdated] returns true and
    leaves the world as it found it: no request is sent.  When it exists,
    the first thing [isOutdated] does is to send a HEAD request to the URL;
    if that request fails or never settles so does [isOutdated], and if it
    returns a response then [isOutdated] returns true exactly when the
    [last-modified] header parses to a time and the local modification time
    is strictly earlier than it, so that equal times are not outdated. *)
Theorem isOutdated_decides_staleness dbPath url w :
  match files w !! dbPath with
  | None => isOutdated dbPath url w = (Returned true, w)
  | Some mtime =>
      (exists more,
          trace (snd (isOutdated dbPath url w)) =
          trace w ++ HttpsRequest url (request_auth headOptions) (Present "HEAD") :: more)
      /\ match request url headOptions w with
         | (Returned response, w1) =>
             exists b,
               isOutdated dbPath url w = (Returned b, w1)
               /\ (b = true <->
                   exists remote,
                     Date_parse_value Date_parse (headers response !! "last-modified")
                       = Num remote
                     /\ (mtime < remote)%Q)
         | (Threw e, w1) => isOutdated dbPath url w = (Threw e, w1)
         | (Pending, w1) => isOutdated dbPath url w = (Pending, w1)
         end
  end.
Proof.
  destruct (files w !! dbPath) as [mtime|] eqn:Hfile;
    [|apply isOutdated_missing; exact Hfile].
  rewrite (isOutdated_present dbPath url w mtime Hfile). split.
  - destruct (request_on_first_effect (tape w) url headOptions w) as [more Hmore].
    exists more. fold (request url headOptions w) in Hmore.
    destruct (request url headOptions w) as [[response|e|] w1]; exact Hmore.
  - destruct (request url headOptions w) as [[response|e|] w1]; try reflexivity.
    eexists. split; [reflexivity|].
    destruct (Date_parse_value Date_parse (headers response !! "last-modified"))
      as [|remote] eqn:Hparse.
    + cbn. split; [discriminate|]. intros (remote & Habs & _). discriminate.
    + rewrite js_lt_Num. split.
      * intros Hlt. exists remote. split; [reflexivity|exact Hlt].
      * intros (remote' & Heq & Hlt). injection Heq as ->. exact Hlt.
Qed.

(** C9: when the local file exists and the HEAD request returns a response
    whose [last-modified] header is missing or does not parse as a date,
    [Date.parse] yields NaN, [isOutdated] returns false without raising an
    error, and the iteration of [main] logs the edition as up to date and
    ends there: no download request follows. *)
Theorem isOutdated_false_without_date editionId w mtime response w1 :
  let dbPath := path_join [downloadPath; editionId +:+ ".mmdb"] in
  files w !! dbPath = Some mtime ->
  request (link editionId) headOptions w = (Returned response, w1) ->
  (headers response !! "last-modified" = None
   \/ exists v, headers response !! "last-modified" = Some v /\ Date_parse v = NaN) ->
  Date_parse_value Date_parse (headers response !! "last-modified") = NaN
  /\ isOutdated dbPath (link editionId) w = (Returned false, w1)
  /\ main_iteration editionId w =
       (Returned tt,
        emit (ConsoleLog (" > " +:+ editionId +:+ ": Is up to date, skipping download")) w1).
Proof.
  intros dbPath Hfile Hreq Hdate.
  assert (Hnan : Date_parse_value Date_parse (headers response !! "last-modified") = NaN).
  { destruct Hdate as [-> | (v & -> & Hv)]; [reflexivity | exact Hv]. }
  assert (Hout : isOutdated dbPath (link editionId) w = (Returned false, w1)).
  { rewrite (isOutdated_present dbPath (link editionId) w mtime Hfile), Hreq, Hnan.
    rewrite js_lt_NaN_r. reflexivity. }
  split; [exact Hnan|]. split; [exact Hout|].
  unfold main_iteration, bind. fold dbPath. rewrite Hout. reflexivity.
Qed.

(** *** The extraction stage *)

Lemma entry_paths_app a b : entry_paths (a ++ b) = entry_paths a ++ entry_paths b.
Proof.
  induction a as [|ev a IH]; [reflexivity|].
  destruct ev; simpl; rewrite IH; reflexivity.
Qed.

Lemma registered_app a b : registered (a ++ b) = registered a + registered b.
Proof.
  unfold registered. rewrite entry_paths_app, List.filter_app, List.length_app.
  reflexivity.
Qed.

Lemma settle_length i s ps : List.length (settle i s ps) = List.length ps.
Proof.
  unfold settle. destruct (ps !! i) as [[| |]|]; try reflexivity.
  apply length_insert.
Qed.

Lemma settle_fulfilled i s ps j :
  settle i s ps !! j = Some Fulfilled ->
  ps !! j = Some Fulfilled \/ (j = i /\ s = Fulfilled).
Proof.
  unfold settle. destruct (ps !! i) as [[| |]|] eqn:Hi; auto.
  destruct (decide (i = j)) as [->|Hne].
  - rewrite list_lookup_insert_eq by (eapply lookup_lt_Some; eauto).
    intros [= ->]. auto.
  - rewrite list_lookup_insert_ne by assumption. auto.
Qed.

Lemma deliver_tracks ev ps w delivered :
  tracks delivered ps ->
  tracks (delivered ++ [ev]) (fst (deliver ev ps w)).
Proof.
  intros [Hlen Hful]. unfold tracks. rewrite registered_app.
  destruct ev as [p| |err|i|i err|i|err]; cbn [deliver fst].
  - unfold on_entry, registered at 2. cbn [entry_paths List.filter].
    fold (is_mmdb p). destruct (is_mmdb p); cbn [fst List.length].
    + split.
      * rewrite List.length_app. cbn. lia.
      * intros i Hi. apply in_or_app. left. apply Hful.
        destruct (decide (i < List.length ps)) as [Hlt|Hge].
        -- rewrite lookup_app_l in Hi by assumption. exact Hi.
        -- rewrite lookup_app_r in Hi by lia.
           destruct (i - List.length ps) as [|k]; cbn in Hi; discriminate.
    + split; [lia|]. intros i Hi. apply in_or_app. left. auto.
  - split; [cbn; lia|]. intros i Hi. apply in_or_app. left. auto.
  - split; [cbn; lia|]. intros i Hi. apply in_or_app. left. auto.
  - split; [rewrite settle_length; cbn; lia|].
    intros j Hj. apply in_or_app.
    destruct (settle_fulfilled _ _ _ _ Hj) as [H|[-> _]]; [left; auto|right; left; reflexivity].
  - split; [rewrite settle_length; cbn; lia|].
    intros j Hj. apply in_or_app.
    destruct (settle_fulfilled _ _ _ _ Hj) as [H|[_ Habs]]; [left; auto|discriminate].
  - split; [cbn; lia|]. intros j Hj. apply in_or_app. left. auto.
  - split; [cbn; lia|]. intros j Hj. apply in_or_app. left. auto.
Qed.

Lemma deliver_keeps_length ev ps w :
  entry_paths [ev] = [] -> List.length (fst (deliver ev ps w)) = List.length ps.
Proof.
  destruct ev; cbn; try discriminate; intros _; try reflexivity; apply settle_length.
Qed.

Lemma first_rejection_None_fulfilled ps :
  first_rejection ps = None -> forallb is_fulfilled ps = true ->
  forall i, i < List.length ps -> ps !! i = Some Fulfilled.
Proof.
  induction ps as [|p ps IH]; intros Hrej Hall i Hi; [cbn in Hi; lia|].
  destruct p; try discriminate. cbn in Hrej, Hall.
  destruct i as [|i]; [reflexivity|]. cbn. apply IH; auto. cbn in Hi. lia.
Qed.

Lemma Promise_all_Returned ps :
  Promise_all ps = Returned tt ->
  forall i, i < List.length ps -> ps !! i = Some Fulfilled.
Proof.
  unfold Promise_all. destruct (first_rejection ps) eqn:Hrej; [discriminate|].
  destruct (forallb is_fulfilled ps) eqn:Hall; [|discriminate].
  intros _. apply first_rejection_None_fulfilled; assumption.
Qed.

(** Once ['end'] was delivered, [Promise.all] lets [main] go on only when
    every promise it watches is fulfilled. *)
Lemma await_all_resolves sched :
  forall ps w delivered w' rest,
    tracks delivered ps ->
    entry_paths sched = [] ->
    await_all sched (List.length ps) ps w = (Returned tt, w', rest) ->
    exists more,
      sched = more ++ rest
      /\ entry_paths more = []
      /\ forall i, i < List.length ps -> In (EvFinish i) (delivered ++ more).
Proof.
  induction sched as [|ev sched IH]; intros ps w delivered w' rest Htr Hent Hrun.
  - cbn in Hrun. rewrite firstn_all in Hrun.
    destruct (Promise_all ps) as [[]| |] eqn:Hall; try discriminate.
    injection Hrun as <- <-. exists [].
    split; [reflexivity|]. split; [reflexivity|].
    intros i Hi. rewrite app_nil_r. apply (proj2 Htr).
    apply Promise_all_Returned; assumption.
  - cbn [await_all] in Hrun. rewrite firstn_all in Hrun.
    destruct (Promise_all ps) as [[]| |] eqn:Hall; try discriminate.
    + injection Hrun as <- <-. exists [].
      split; [reflexivity|]. split; [reflexivity|].
      intros i Hi. rewrite app_nil_r. apply (proj2 Htr).
      apply Promise_all_Returned; assumption.
    + assert (Hev : entry_paths [ev] = [] /\ entry_paths sched = []).
      { change (ev :: sched) with ([ev] ++ sched) in Hent.
        rewrite entry_paths_app in Hent. apply app_eq_nil in Hent. exact Hent. }
      destruct Hev as [Hev Hsched].
      destruct (unhandled_rejection ev (List.length ps) ps); [discriminate|].
      pose proof (deliver_tracks ev ps w delivered Htr) as Htr'.
      pose proof (deliver_keeps_length ev ps w Hev) as Hlen.
      destruct (deliver ev ps w) as [ps' w1]. cbn [fst] in Htr', Hlen.
      rewrite <- Hlen in Hrun.
      destruct (IH ps' w1 (delivered ++ [ev]) w' rest Htr' Hsched Hrun)
        as (more & -> & Hmore & Hfin).
      exists (ev :: more). repeat split.
      * change (ev :: more) with ([ev] ++ more).
        rewrite entry_paths_app, Hev, Hmore. reflexivity.
      * intros i Hi. rewrite <- Hlen in Hi.
        specialize (Hfin i Hi). rewrite <- app_assoc in Hfin. exact Hfin.
Qed.

Lemma entries_before_end_End sched :
  entries_before_end (EvEnd :: sched) = true -> entry_paths sched = [].
Proof. cbn. destruct (entry_paths sched); [reflexivity|discriminate]. Qed.

Lemma await_stream_resolves sched :
  forall ps w delivered w' rest,
    tracks delivered ps ->
    entries_before_end sched = true ->
    await_stream sched ps w = (Returned tt, w', rest) ->
    exists more,
      sched = more ++ rest
      /\ In EvEnd more
      /\ forall i, i < registered (delivered ++ more) ->
                   In (EvFinish i) (delivered ++ more).
Proof.
  induction sched as [|ev sched IH]; intros ps w delivered w' rest Htr Hord Hrun;
    [discriminate|].
  assert (Hstep : forall ps1 w1,
             deliver ev ps w = (ps1, w1) ->
             entries_before_end sched = true ->
             await_stream sched ps1 w1 = (Returned tt, w', rest) ->
             exists more,
               ev :: sched = more ++ rest /\ In EvEnd more
               /\ forall i, i < registered (delivered ++ more) ->
                            In (EvFinish i) (delivered ++ more)).
  { intros ps1 w1 Hd Hord' Hrun'.
    pose proof (deliver_tracks ev ps w delivered Htr) as Htr'.
    rewrite Hd in Htr'. cbn [fst] in Htr'.
    destruct (IH ps1 w1 (delivered ++ [ev]) w' rest Htr' Hord' Hrun')
      as (more & -> & Hend & Hfin).
    exists (ev :: more). split; [reflexivity|]. split; [right; exact Hend|].
    intros i Hi. change (ev :: more) with ([ev] ++ more) in *.
    rewrite app_assoc in *. auto. }
  destruct ev as [p| |err|i|i err|i|err].
  - cbn [await_stream unhandled_rejection] in Hrun.
    destruct (deliver (EvEntry p) ps w) as [ps1 w1] eqn:Hd. eapply Hstep; eauto.
  - cbn [await_stream] in Hrun.
    pose proof (entries_before_end_End sched Hord) as Hent.
    pose proof (deliver_tracks EvEnd ps w delivered Htr) as Htr'. cbn [deliver fst] in Htr'.
    destruct (await_all_resolves sched ps w (delivered ++ [EvEnd]) w' rest Htr' Hent Hrun)
      as (more & -> & Hmore & Hfin).
    exists (EvEnd :: more). split; [reflexivity|]. split; [left; reflexivity|].
    intros i Hi. change (EvEnd :: more) with ([EvEnd] ++ more) in *.
    rewrite app_assoc in *. apply Hfin.
    rewrite registered_app in Hi. unfold registered at 2 in Hi. rewrite Hmore in Hi.
    cbn in Hi. destruct Htr' as [Hlen _]. lia.
  - discriminate.
  - cbn [await_stream unhandled_rejection] in Hrun.
    destruct (deliver (EvFinish i) ps w) as [ps1 w1] eqn:Hd. eapply Hstep; eauto.
  - cbn [await_stream] in Hrun.
    destruct (unhandled_rejection (EvWriteError i err) 0 ps); [discriminate|].
    destruct (deliver (EvWriteError i err) ps w) as [ps1 w1] eqn:Hd. eapply Hstep; eauto.
  - cbn [await_stream unhandled_rejection] in Hrun.
    destruct (deliver (EvOpen i) ps w) as [ps1 w1] eqn:Hd. eapply Hstep; eauto.
  - discriminate.
Qed.

(** C3: the two awaits of the extraction stage let [main] go on only after
    the tar stream's ['end'] was delivered and the write stream of every
    [.mmdb] entry has finished, in whatever order the entries, their
    ['finish'] events and ['end'] are delivered (the tar stream emitting no
    entry after its ['end']). *)
Theorem extraction_resolves_after_end_and_writes response w w' rest :
  entries_before_end (schedule response) = true ->
  extraction response w = (Returned tt, w', rest) ->
  exists delivered,
    schedule response = delivered ++ rest
    /\ In EvEnd delivered
    /\ forall i, i < registered delivered -> In (EvFinish i) delivered.
Proof.
  intros Hord Hrun. unfold extraction in Hrun.
  assert (Htr : tracks [] []).
  { split; [reflexivity|]. intros i Hi. destruct i; discriminate. }
  destruct (await_stream_resolves (schedule response) [] w [] w' rest Htr Hord Hrun)
    as (more & Heq & Hend & Hfin).
  exists more. auto.
Qed.

Lemma created_app a b : created (a ++ b) = created a ++ created b.
Proof.
  induction a as [|e a IH]; [reflexivity|].
  destruct e; simpl; rewrite IH; reflexivity.
Qed.

Lemma outputs_app a b :
  outputs downloadPath (a ++ b) = outputs downloadPath a ++ outputs downloadPath b.
Proof. unfold outputs. rewrite List.filter_app, List.map_app. reflexivity. Qed.

Lemma outputs_length paths :
  List.length (outputs downloadPath paths) = List.length (List.filter is_mmdb paths).
Proof. unfold outputs. apply List.length_map. Qed.

(** The file of a write stream, when the trace and the array agree on the
    streams that are open. *)
Lemma stream_path_aligned base outs i ps w :
  created (trace w) = base ++ outs ->
  List.length ps = List.length outs ->
  stream_path i ps w = outs !! i.
Proof.
  intros Hc Hlen. unfold stream_path. rewrite Hc, List.length_app, Hlen.
  destruct (Nat.ltb_spec i (List.length outs)) as [Hlt|Hge].
  - rewrite lookup_app_r by lia. f_equal. lia.
  - symmetry. apply lookup_ge_None. exact Hge.
Qed.

Lemma unpacking_start w : unpacking downloadPath w [] [] w.
Proof.
  unfold unpacking. cbn. rewrite app_nil_r. repeat split; auto.
  intros i Hi. destruct i; discriminate.
Qed.

Lemma unpacking_written w0 delivered ps w i :
  unpacking downloadPath w0 delivered ps w ->
  unpacking downloadPath w0 delivered ps (written i ps w).
Proof.
  intros (Hc & Hlen & Hclock & Hfiles & Hful).
  assert (Hlen' : List.length ps
                  = List.length (outputs downloadPath (entry_paths delivered))).
  { rewrite outputs_length. exact Hlen. }
  unfold written. rewrite (stream_path_aligned _ _ i ps w Hc Hlen').
  destruct (outputs downloadPath (entry_paths delivered) !! i) as [q|] eqn:Hq;
    [|repeat split; assumption].
  assert (Hin : In q (outputs downloadPath (entry_paths delivered))).
  { apply list_elem_of_In. eapply list_elem_of_lookup_2. exact Hq. }
  repeat split; try assumption.
  - intros q'. cbn [files touch]. destruct (decide (q' = q)) as [->|Hne].
    + right. rewrite lookup_insert_eq, Hclock. auto.
    + rewrite lookup_insert_ne by congruence. apply Hfiles.
  - intros j Hj. destruct (Hful j Hj) as (q' & Hq' & Hfile).
    exists q'. split; [exact Hq'|]. cbn [files touch].
    destruct (decide (q' = q)) as [->|Hne].
    + rewrite lookup_insert_eq, Hclock. reflexivity.
    + rewrite lookup_insert_ne by congruence. exact Hfile.
Qed.

Lemma unpacking_crash w0 delivered ps w e :
  unpacking downloadPath w0 delivered ps w ->
  unpacking downloadPath w0 delivered ps (crash e w).
Proof.
  intros (Hc & Hlen & Hclock & Hfiles & Hful). repeat split; try assumption.
  unfold crash. cbn [trace emit]. rewrite !created_app. cbn. rewrite !app_nil_r.
  exact Hc.
Qed.

(** An event that is no entry opens no stream. *)
Lemma unpacking_passed w0 delivered ev ps w :
  entry_paths [ev] = [] ->
  unpacking downloadPath w0 delivered ps w ->
  unpacking downloadPath w0 (delivered ++ [ev]) ps w.
Proof.
  intros Hev (Hc & Hlen & Hclock & Hfiles & Hful). unfold unpacking.
  rewrite registered_app, entry_paths_app, Hev, app_nil_r.
  unfold registered at 2. rewrite Hev. cbn. rewrite Nat.add_0_r. auto.
Qed.

Lemma unpacking_settle w0 delivered ps w i s :
  (s = Fulfilled ->
   ps !! i = Some Unsettled ->
   exists q, outputs downloadPath (entry_paths delivered) !! i = Some q
             /\ files w !! q = Some (clock w0)) ->
  unpacking downloadPath w0 delivered ps w ->
  unpacking downloadPath w0 delivered (settle i s ps) w.
Proof.
  intros Hnew (Hc & Hlen & Hclock & Hfiles & Hful).
  repeat split; try assumption.
  - rewrite settle_length. exact Hlen.
  - intros j Hj. unfold settle in Hj.
    destruct (ps !! i) as [[| |]|] eqn:Hi; auto.
    destruct (decide (i = j)) as [->|Hne].
    + rewrite list_lookup_insert_eq in Hj by (eapply lookup_lt_Some; eauto).
      injection Hj as ->. auto.
    + rewrite list_lookup_insert_ne in Hj by assumption. auto.
Qed.

(** The listeners keep the link between the files and the events. *)
Lemma deliver_unpacking w0 delivered ev ps w :
  unpacking downloadPath w0 delivered ps w ->
  unpacking downloadPath w0 (delivered ++ [ev])
    (fst (deliver ev ps w)) (snd (deliver ev ps w)).
Proof.
  intros Hun. destruct ev as [p| |err|i|i err|i|err]; cbn [deliver fst snd];
    try (apply unpacking_passed; [reflexivity|]).
  - destruct Hun as (Hc & Hlen & Hclock & Hfiles & Hful).
    unfold on_entry, unpacking.
    rewrite registered_app, entry_paths_app, outputs_app.
    unfold registered at 2, outputs at 2 4 6. cbn [entry_paths List.filter].
    fold (is_mmdb p). destruct (is_mmdb p); cbn [fst snd List.map List.length].
    + fold (destination downloadPath p). repeat split.
      * cbn [trace emit]. rewrite !created_app. cbn. rewrite app_nil_r, Hc, app_assoc.
        reflexivity.
      * rewrite List.length_app. cbn. lia.
      * exact Hclock.
      * intros q. destruct (Hfiles q) as [H|[Hin H]]; [left; exact H|right].
        split; [apply in_or_app; left; exact Hin|exact H].
      * intros i Hi.
        assert (Hlt : i < List.length ps).
        { destruct (decide (i < List.length ps)) as [Hlt|Hge]; [exact Hlt|].
          rewrite lookup_app_r in Hi by lia.
          destruct (i - List.length ps) as [|k]; cbn in Hi; discriminate. }
        rewrite lookup_app_l in Hi by exact Hlt.
        destruct (Hful i Hi) as (q & Hq & Hfile). exists q.
        split; [|exact Hfile]. rewrite lookup_app_l; [exact Hq|].
        eapply lookup_lt_Some. exact Hq.
    + rewrite !app_nil_r, Nat.add_0_r. repeat split; assumption.
  - exact Hun.
  - exact Hun.
  - apply unpacking_settle; [|apply unpacking_written; exact Hun].
    intros _ Hopen.
    destruct Hun as (Hc & Hlen & Hclock & Hfiles & Hful).
    assert (Hlen' : List.length ps
                    = List.length (outputs downloadPath (entry_paths delivered))).
    { rewrite outputs_length. exact Hlen. }
    unfold written. rewrite (stream_path_aligned _ _ i ps w Hc Hlen').
    destruct (outputs downloadPath (entry_paths delivered) !! i) as [q|] eqn:Hq.
    + exists q. split; [reflexivity|]. cbn [files touch].
      rewrite lookup_insert_eq, Hclock. reflexivity.
    + apply lookup_ge_None in Hq. apply lookup_lt_Some in Hopen. lia.
  - apply unpacking_settle; [discriminate|exact Hun].
  - apply unpacking_written. exact Hun.
  - exact Hun.
Qed.

Lemma unhandled_rejection_passed ev n ps e :
  unhandled_rejection ev n ps = Some e -> entry_paths [ev] = [].
Proof. destruct ev; try discriminate. reflexivity. Qed.

Lemma Promise_all_take n ps i :
  Promise_all (take n ps) = Returned tt ->
  i < n -> i < List.length ps -> ps !! i = Some Fulfilled.
Proof.
  intros Hall Hn Hi. rewrite <- (lookup_take_lt ps n i) by exact Hn.
  apply Promise_all_Returned; [exact Hall|].
  rewrite length_take. lia.
Qed.

(** What the second await leaves: the events it took from the schedule went
    through the listeners, and if it lets [main] go on every promise it
    watched is fulfilled. *)
Lemma await_all_unpacking sched :
  forall n ps w w0 delivered,
    unpacking downloadPath w0 delivered ps w ->
    exists more ps',
      sched = more ++ snd (await_all sched n ps w)
      /\ unpacking downloadPath w0 (delivered ++ more) ps'
           (snd (fst (await_all sched n ps w)))
      /\ (fst (fst (await_all sched n ps w)) = Returned tt ->
          forall i, i < n -> i < List.length ps' -> ps' !! i = Some Fulfilled).
Proof.
  induction sched as [|ev sched IH]; intros n ps w w0 delivered Hun.
  - exists [], ps. cbn [await_all]. rewrite app_nil_r.
    destruct (Promise_all (take n ps)) as [[]| |] eqn:Hall; cbn [fst snd];
      (split; [reflexivity|]); (split; [exact Hun|]); try discriminate.
    intros _ i. apply Promise_all_take. exact Hall.
  - cbn [await_all].
    destruct (Promise_all (take n ps)) as [[]| |] eqn:Hall; cbn [fst snd].
    + exists [], ps. rewrite app_nil_r. split; [reflexivity|]. split; [exact Hun|].
      intros _ i. apply Promise_all_take. exact Hall.
    + exists [], ps. rewrite app_nil_r. split; [reflexivity|].
      split; [exact Hun|discriminate].
    + destruct (unhandled_rejection ev n ps) as [e|] eqn:Hcrash; cbn [fst snd].
      * exists [ev], ps. split; [reflexivity|]. split; [|discriminate].
        apply unpacking_crash. apply unpacking_passed; [|exact Hun].
        eapply unhandled_rejection_passed. exact Hcrash.
      * pose proof (deliver_unpacking w0 delivered ev ps w Hun) as Hd.
        destruct (deliver ev ps w) as [ps1 w1]. cbn [fst snd] in Hd.
        destruct (IH n ps1 w1 w0 (delivered ++ [ev]) Hd) as (more & ps' & Heq & Hun' & Hret).
        exists (ev :: more), ps'. split; [cbn; rewrite <- Heq; reflexivity|].
        split; [|exact Hret].
        change (ev :: more) with ([ev] ++ more). rewrite app_assoc. exact Hun'.
Qed.

Lemma await_stream_unpacking sched :
  forall ps w w0 delivered,
    unpacking downloadPath w0 delivered ps w ->
    exists more ps',
      sched = more ++ snd (await_stream sched ps w)
      /\ unpacking downloadPath w0 (delivered ++ more) ps'
           (snd (fst (await_stream sched ps w))).
Proof.
  induction sched as [|ev sched IH]; intros ps w w0 delivered Hun.
  - exists [], ps. cbn. rewrite app_nil_r. auto.
  - assert (Hstep : forall ps1 w1,
               deliver ev ps w = (ps1, w1) ->
               exists more ps',
                 ev :: sched = more ++ snd (await_stream sched ps1 w1)
                 /\ unpacking downloadPath w0 (delivered ++ more) ps'
                      (snd (fst (await_stream sched ps1 w1)))).
    { intros ps1 w1 Hd. pose proof (deliver_unpacking w0 delivered ev ps w Hun) as Hev.
      rewrite Hd in Hev. cbn [fst snd] in Hev.
      destruct (IH ps1 w1 w0 (delivered ++ [ev]) Hev) as (more & ps' & Heq & Hun').
      exists (ev :: more), ps'. split; [cbn; rewrite <- Heq; reflexivity|].
      change (ev :: more) with ([ev] ++ more). rewrite app_assoc. exact Hun'. }
    assert (Hstop : forall w',
               w' = w \/ (exists e, w' = crash e w) ->
               entry_paths [ev] = [] ->
               exists more ps',
                 ev :: sched = more ++ sched
                 /\ unpacking downloadPath w0 (delivered ++ more) ps' w').
    { intros w' Hw' Hev. exists [ev], ps. split; [reflexivity|].
      destruct Hw' as [->|[e ->]]; [|apply unpacking_crash];
        apply unpacking_passed; assumption. }
    destruct ev as [p| |err|i|i err|i|err]; cbn [await_stream unhandled_rejection].
    + destruct (deliver (EvEntry p) ps w) as [ps1 w1] eqn:Hd. eauto.
    + pose proof (unpacking_passed w0 delivered EvEnd ps w eq_refl Hun) as Hun1.
      destruct (await_all_unpacking sched (List.length ps) ps w w0 _ Hun1)
        as (more & ps' & Heq & Hun' & _).
      exists (EvEnd :: more), ps'. split; [cbn; rewrite <- Heq; reflexivity|].
      change (EvEnd :: more) with ([EvEnd] ++ more). rewrite app_assoc. exact Hun'.
    + cbn [fst snd]. apply Hstop; [left|]; reflexivity.
    + destruct (deliver (EvFinish i) ps w) as [ps1 w1] eqn:Hd. eauto.
    + destruct (ps !! i) as [[| |]|]; cbn [Nat.ltb Nat.leb fst snd];
        [apply Hstop; [right; eauto|reflexivity]|..];
        destruct (deliver (EvWriteError i err) ps w) as [ps1 w1] eqn:Hd; eauto.
    + destruct (deliver (EvOpen i) ps w) as [ps1 w1] eqn:Hd. eauto.
    + cbn [fst snd]. apply Hstop; [right; eauto|reflexivity].
Qed.

(** *** How a run extends the trace *)

Section Evolution.

Variable P : Effect -> Prop.
Hypothesis logs_ok : forall msg, P (ConsoleLog msg).
Hypothesis crash_ok : forall e, P (UncaughtError e) /\ P (ProcessExit 1).

Lemma evolves_refl w : evolves P w w.
Proof.
  split; [|auto]. exists []. rewrite app_nil_r. auto.
Qed.

Lemma evolves_trans w1 w2 w3 :
  evolves P w1 w2 -> evolves P w2 w3 -> evolves P w1 w3.
Proof.
  intros [(d1 & Ht1 & Hd1) Htp1] [(d2 & Ht2 & Hd2) Htp2]. split; [|auto].
  exists (d1 ++ d2). rewrite Ht2, Ht1, app_assoc. split; [reflexivity|].
  apply Forall_app. auto.
Qed.

Lemma evolves_emit e w : P e -> evolves P w (emit e w).
Proof.
  intros He. split; [|auto]. exists [e]. split; [reflexivity|]. constructor; auto.
Qed.

Lemma evolves_touch p w : evolves P w (touch p w).
Proof. split; [|auto]. exists []. cbn. rewrite app_nil_r. auto. Qed.

Lemma evolves_written i ps w : evolves P w (written i ps w).
Proof.
  unfold written. destruct (stream_path i ps w); [apply evolves_touch|apply evolves_refl].
Qed.

Lemma evolves_crash e w : evolves P w (crash e w).
Proof.
  unfold crash. destruct (crash_ok e) as [Hreport Hexit].
  eapply evolves_trans; apply evolves_emit; assumption.
Qed.

Lemma evolves_redirects_ok w w' :
  evolves P w w' -> redirects_ok P w -> redirects_ok P w'.
Proof. intros [_ Htp] Hok r loc m Hin. apply Hok, Htp, Hin. Qed.

Lemma evolves_archives_ok w w' :
  evolves P w w' -> archives_ok P downloadPath w -> archives_ok P downloadPath w'.
Proof. intros [_ Htp] Hok r Hin. apply Hok, Htp, Hin. Qed.

Lemma request_on_evolves tp :
  forall url options w,
    (forall r, In r tp -> In r (tape w)) ->
    redirects_ok P w ->
    P (HttpsRequest url (request_auth options) (method options)) ->
    evolves P w (snd (request_on tp url options w)).
Proof.
  induction tp as [|[response|err] tp IH]; intros url options w Htp Hok Hq.
  - cbn. apply evolves_emit. exact Hq.
  - cbn [request_on].
    set (w1 := set_tape tp (emit (HttpsRequest url (request_auth options)
                                    (method options)) w)).
    assert (H1 : evolves P w w1).
    { split.
      - exists [HttpsRequest url (request_auth options) (method options)].
        split; [reflexivity|]. constructor; auto.
      - intros r Hr. apply Htp. right. exact Hr. }
    destruct (redirect_location response) as [loc|] eqn:Hloc.
    + destruct (https_accepts loc); [|exact H1].
      eapply evolves_trans; [exact H1|]. apply IH.
      * auto.
      * eapply evolves_redirects_ok; eauto.
      * apply (Hok response loc). { apply Htp. left. reflexivity. } exact Hloc.
    + destruct (negb _); exact H1.
  - cbn. split.
    + exists [HttpsRequest url (request_auth options) (method options)].
      split; [reflexivity|]. constructor; auto.
    + intros r Hr. apply Htp. right. exact Hr.
Qed.

Lemma request_evolves url options w :
  redirects_ok P w ->
  P (HttpsRequest url (request_auth options) (method options)) ->
  evolves P w (snd (request url options w)).
Proof. intros Hok Hq. apply request_on_evolves; auto. Qed.

(** The response [request] returns is one the network delivered. *)
Lemma request_on_returned tp :
  forall url options w response w',
    request_on tp url options w = (Returned response, w') ->
    In (NetResponse response) tp.
Proof.
  induction tp as [|[r|err] tp IH]; intros url options w response w' Hrun;
    cbn [request_on] in Hrun; try discriminate.
  destruct (redirect_location r) as [loc|].
  - destruct (https_accepts loc); [|discriminate]. right. eapply IH. exact Hrun.
  - destruct (negb _); [discriminate|]. injection Hrun as <- _. left. reflexivity.
Qed.

Lemma isOutdated_evolves dbPath url w :
  redirects_ok P w ->
  P (HttpsRequest url (request_auth headOptions) (Present "HEAD")) ->
  evolves P w (snd (isOutdated dbPath url w)).
Proof.
  intros Hok Hq. unfold isOutdated.
  destruct (negb (fs_existsSync dbPath w)); [apply evolves_refl|].
  unfold bind. pose proof (request_evolves url headOptions w Hok Hq) as Hreq.
  change {| method := Present "HEAD"; auth := Absent |} with headOptions.
  destruct (request url headOptions w) as [[response|e|] w1]; cbn [snd] in *; auto.
  unfold fs_statSync_mtimeMs. destruct (files w1 !! dbPath); exact Hreq.
Qed.

Local Abbreviation writes_ok := (writes_ok P downloadPath).

Lemma deliver_evolves ev ps w :
  writes_ok (entry_paths [ev]) -> evolves P w (snd (deliver ev ps w)).
Proof.
  intros Hw. destruct ev as [p| |err|i|i err|i|err]; cbn [deliver snd];
    try apply evolves_refl; try apply evolves_written.
  unfold on_entry. fold (is_mmdb p).
  destruct (is_mmdb p) eqn:Hp; [|apply evolves_refl].
  cbn [snd]. eapply evolves_trans; [|apply evolves_emit].
  - apply evolves_emit. apply logs_ok.
  - apply Hw; [left; reflexivity|exact Hp].
Qed.

Lemma writes_ok_cons ev sched :
  writes_ok (entry_paths (ev :: sched)) ->
  writes_ok (entry_paths [ev]) /\ writes_ok (entry_paths sched).
Proof.
  intros Hw. change (ev :: sched) with ([ev] ++ sched) in Hw.
  rewrite entry_paths_app in Hw.
  split; intros p Hin; apply Hw; apply in_or_app; auto.
Qed.

Lemma await_all_evolves sched :
  forall n ps w,
    writes_ok (entry_paths sched) ->
    evolves P w (snd (fst (await_all sched n ps w))).
Proof.
  induction sched as [|ev sched IH]; intros n ps w Hw; cbn [await_all].
  - destruct (Promise_all (take n ps)); apply evolves_refl.
  - destruct (Promise_all (take n ps)); try apply evolves_refl.
    apply writes_ok_cons in Hw. destruct Hw as [Hev Hsched].
    destruct (unhandled_rejection ev n ps); [apply evolves_crash|].
    pose proof (deliver_evolves ev ps w Hev) as Hd.
    destruct (deliver ev ps w) as [ps1 w1]. eapply evolves_trans; [exact Hd|apply IH; auto].
Qed.

Lemma await_stream_evolves sched :
  forall ps w,
    writes_ok (entry_paths sched) ->
    evolves P w (snd (fst (await_stream sched ps w))).
Proof.
  induction sched as [|ev sched IH]; intros ps w Hw; [apply evolves_refl|].
  apply writes_ok_cons in Hw. destruct Hw as [Hev Hsched].
  assert (Hstep : forall ps1 w1, deliver ev ps w = (ps1, w1) ->
                    evolves P w (snd (fst (await_stream sched ps1 w1)))).
  { intros ps1 w1 Hd. pose proof (deliver_evolves ev ps w Hev) as Hdel.
    rewrite Hd in Hdel. eapply evolves_trans; [exact Hdel|apply IH; auto]. }
  destruct ev as [p| |err|i|i err|i|err]; cbn [await_stream].
  - cbn [unhandled_rejection]. destruct (deliver (EvEntry p) ps w) eqn:Hd. eauto.
  - apply await_all_evolves. exact Hsched.
  - apply evolves_refl.
  - cbn [unhandled_rejection]. destruct (deliver (EvFinish i) ps w) eqn:Hd. eauto.
  - destruct (unhandled_rejection (EvWriteError i err) 0 ps); [apply evolves_crash|].
    destruct (deliver (EvWriteError i err) ps w) eqn:Hd. eauto.
  - cbn [unhandled_rejection]. destruct (deliver (EvOpen i) ps w) eqn:Hd. eauto.
  - apply evolves_crash.
Qed.

Lemma extract_evolves response w :
  writes_ok (entry_paths (schedule response)) ->
  evolves P w (snd (extract response w)).
Proof. unfold extract, extraction. apply await_stream_evolves. Qed.

Lemma main_iteration_evolves editionId w :
  redirects_ok P w ->
  archives_ok P downloadPath w ->
  P (HttpsRequest (link editionId) (request_auth headOptions) (Present "HEAD")) ->
  P (HttpsRequest (link editionId) (request_auth noOptions) Absent) ->
  evolves P w (snd (main_iteration editionId w)).
Proof.
  intros Hok Harch Hhead Hget. unfold main_iteration, bind.
  pose proof (isOutdated_evolves (path_join [downloadPath; editionId +:+ ".mmdb"])
                (link editionId) w Hok Hhead) as H1.
  destruct (isOutdated _ _ w) as [[b|e|] w1]; cbn [snd] in *; auto.
  destruct b; cbn [negb].
  - unfold perform.
    set (w2 := emit _ w1).
    assert (H2 : evolves P w w2).
    { eapply evolves_trans; [exact H1|]. apply evolves_emit. apply logs_ok. }
    pose proof (request_evolves (link editionId) noOptions w2
                  (evolves_redirects_ok _ _ H2 Hok) Hget) as H3.
    destruct (request (link editionId) noOptions w2) as [[response|e|] w3] eqn:Hreq;
      cbn [snd] in *; try (eapply evolves_trans; eassumption).
    eapply evolves_trans; [exact H2|]. eapply evolves_trans; [exact H3|].
    apply extract_evolves.
    apply (evolves_archives_ok _ _ H2 Harch response).
    eapply request_on_returned. exact Hreq.
  - unfold perform. cbn [snd]. eapply evolves_trans; [exact H1|].
    apply evolves_emit. apply logs_ok.
Qed.

Lemma main_loop_evolves ids :
  forall w,
    redirects_ok P w ->
    archives_ok P downloadPath w ->
    (forall id, In id ids ->
       P (HttpsRequest (link id) (request_auth headOptions) (Present "HEAD"))
       /\ P (HttpsRequest (link id) (request_auth noOptions) Absent)) ->
    evolves P w (snd (main_loop ids w)).
Proof.
  induction ids as [|id ids IH]; intros w Hok Harch Hq; [apply evolves_refl|].
  cbn [main_loop]. unfold bind.
  destruct (Hq id (or_introl eq_refl)) as [Hhead Hget].
  pose proof (main_iteration_evolves id w Hok Harch Hhead Hget) as H1.
  destruct (main_iteration id w) as [[[]|e|] w1]; cbn [snd] in *; auto.
  eapply evolves_trans; [exact H1|]. apply IH.
  - eapply evolves_redirects_ok; eauto.
  - eapply evolves_archives_ok; eauto.
  - intros id' Hin. apply Hq. right. exact Hin.
Qed.

End Evolution.

(** *** The loop of [main] *)

Lemma main_loop_app ids1 :
  forall ids2 w,
    main_loop (ids1 ++ ids2) w =
      match main_loop ids1 w with
      | (Returned _, w1) => main_loop ids2 w1
      | (Threw e, w1) => (Threw e, w1)
      | (Pending, w1) => (Pending, w1)
      end.
Proof.
  induction ids1 as [|id ids1 IH]; intros ids2 w; [reflexivity|].
  cbn [app main_loop]. unfold bind.
  destruct (main_iteration id w) as [[[]|e|] w1]; auto.
Qed.

Lemma main_loop_trace_grows ids w :
  exists d, trace (snd (main_loop ids w)) = trace w ++ d.
Proof.
  destruct (main_loop_evolves (fun _ => True) (fun _ => I) (fun _ => conj I I) ids w)
    as [(d & Hd & _) _].
  - intros r loc m _ _. exact I.
  - intros r _ p _ _. exact I.
  - intros id _. split; exact I.
  - exists d. exact Hd.
Qed.



End Properties.

(** ** URL construction *)

(** C5: with a (truthy) account id the URL of an edition is the
    [geoip/databases/<edition>/download] one and a request made without an
    [auth] option carries the basic-auth string [accountId:licenseKey];
    without one the URL is the legacy one with the edition and the license
    key as query parameters and the request carries no auth.  The URL does
    not depend on the account id beyond its presence, and with an account id
    it does not depend on the license key. *)
Theorem link_by_accountId_presence https_accepts accountId licenseKey edition :
  (forall id, accountId = Some id -> id <> "" ->
     link accountId licenseKey edition =
       "https://download.maxmind.com/geoip/databases/" +:+ edition
         +:+ "/download?suffix=tar.gz"
     /\ request_auth accountId licenseKey noOptions = Some (id +:+ ":" +:+ licenseKey)
     /\ forall licenseKey',
          link accountId licenseKey' edition = link accountId licenseKey edition)
  /\ (truthy accountId = false ->
      link accountId licenseKey edition =
        "https://download.maxmind.com/app/geoip_download?edition_id=" +:+ edition
          +:+ "&license_key=" +:+ licenseKey +:+ "&suffix=tar.gz"
      /\ request_auth accountId licenseKey noOptions = None)
  /\ (forall accountId', truthy accountId' = truthy accountId ->
      link accountId' licenseKey edition = link accountId licenseKey edition)
  /\ (forall options w, auth options = Absent ->
      exists more,
        trace (snd (request https_accepts accountId licenseKey
                      (link accountId licenseKey edition) options w)) =
        trace w ++ HttpsRequest (link accountId licenseKey edition)
                     (request_auth accountId licenseKey noOptions) (method options)
                   :: more).
Proof.
  split; [|split; [|split]].
  - intros id -> Hid.
    assert (Hpresent : truthy (Some id) = true).
    { cbn. destruct (String.eqb_spec id ""); [contradiction|reflexivity]. }
    unfold link, request_auth. cbn [auth noOptions]. rewrite Hpresent.
    cbn [default]. repeat split.
  - intros Habsent. unfold link, request_auth. cbn [auth noOptions].
    rewrite Habsent. split; reflexivity.
  - intros accountId' Hsame. unfold link. rewrite Hsame. reflexivity.
  - intros options w Hauth.
    destruct (request_on_first_effect https_accepts accountId licenseKey (tape w)
                (link accountId licenseKey edition) options w) as [more Hmore].
    exists more. unfold request. rewrite Hmore.
    unfold request_auth. rewrite Hauth. reflexivity.
Qed.

(** ** The editions of a run *)

Lemma includes_In l x : includes l x = true <-> In x l.
Proof.
  unfold includes. rewrite existsb_exists. split.
  - intros (y & Hin & Heq). apply String.eqb_eq in Heq. subst. exact Hin.
  - intros Hin. exists x. split; [exact Hin|apply String.eqb_refl].
Qed.

Lemma filter_includes selected l :
  List.filter (fun e => includes selected e) l = filter (fun e => e ∈ selected) l.
Proof.
  induction l as [|e l IH]; [reflexivity|].
  cbn [List.filter]. rewrite filter_cons, IH.
  destruct (includes selected e) eqn:Hinc.
  - apply includes_In, list_elem_of_In in Hinc. rewrite decide_True by exact Hinc.
    reflexivity.
  - rewrite decide_False; [reflexivity|].
    intros Hin. apply list_elem_of_In, includes_In in Hin. congruence.
Qed.

Lemma main_unfold Date_parse https_accepts accountId licenseKey selected downloadPath w :
  main Date_parse https_accepts accountId licenseKey selected downloadPath w =
    main_loop Date_parse https_accepts accountId licenseKey downloadPath
      (editionIds selected)
      (emit (ConsoleLog "Downloading maxmind databases...") w).
Proof. reflexivity. Qed.

Lemma append_cons c a b : String c a +:+ b = String c (a +:+ b).
Proof. reflexivity. Qed.

Lemma length_append a b :
  String.length (a +:+ b) = String.length a + String.length b.
Proof.
  induction a as [|c a IH]; [reflexivity|].
  rewrite append_cons. cbn [String.length]. rewrite IH. reflexivity.
Qed.

Lemma append_inj_r x :
  forall y s, x +:+ s = y +:+ s -> x = y.
Proof.
  induction x as [|c x IH]; intros [|c' y] s Heq.
  - reflexivity.
  - apply (f_equal String.length) in Heq. rewrite !length_append in Heq.
    cbn [String.length] in Heq. lia.
  - apply (f_equal String.length) in Heq. rewrite !length_append in Heq.
    cbn [String.length] in Heq. lia.
  - rewrite !append_cons in Heq. injection Heq as -> Heq. f_equal. eapply IH. exact Heq.
Qed.

Lemma link_inj accountId licenseKey x y :
  link accountId licenseKey x = link accountId licenseKey y -> x = y.
Proof.
  unfold link. destruct (truthy accountId); intros Heq.
  - apply String.app_inj in Heq. apply append_inj_r in Heq. exact Heq.
  - apply String.app_inj in Heq. apply append_inj_r in Heq. exact Heq.
Qed.

(** The effects of [main], after its banner, come from the run. *)
Lemma main_from_run Date_parse https_accepts accountId licenseKey selected
    downloadPath w :
  exists d,
    trace (snd (main Date_parse https_accepts accountId licenseKey selected
                  downloadPath w)) =
      trace w ++ ConsoleLog "Downloading maxmind databases..." :: d
    /\ Forall (from_run accountId licenseKey selected downloadPath w) d.
Proof.
  rewrite main_unfold.
  destruct (main_loop_evolves Date_parse https_accepts accountId licenseKey
              downloadPath
              (from_run accountId licenseKey selected downloadPath w)
              (fun _ => I) (fun _ => conj I I) (editionIds selected)
              (emit (ConsoleLog "Downloading maxmind databases...") w))
    as [(d & Hd & Hok) _].
  - intros r loc m Hr Hloc. right. exists r. auto.
  - intros r Hr p Hp Hmmdb. exists r, p. auto.
  - intros id Hid. split; left; exists id; auto.
  - exists d. rewrite Hd. cbn. rewrite <- app_assoc. auto.
Qed.

(** ** Credentials *)

Lemma request_in_emit url a m e w :
  In (HttpsRequest url a m) (trace (emit e w)) ->
  In (HttpsRequest url a m) (trace w) \/ e = HttpsRequest url a m.
Proof.
  cbn. intros Hin. apply in_app_or in Hin. destruct Hin as [Hin|[Hin|[]]]; auto.
Qed.

Lemma request_in_ensure_directory url a m p w :
  In (HttpsRequest url a m) (trace (ensure_directory p w)) ->
  In (HttpsRequest url a m) (trace w).
Proof.
  unfold ensure_directory. destruct (negb (fs_existsSync p w)); [|auto].
  intros Hin. apply request_in_emit in Hin. destruct Hin as [Hin|Hin]; [exact Hin|discriminate].
Qed.

Lemma tape_ensure_directory p w : tape (ensure_directory p w) = tape w.
Proof. unfold ensure_directory. destruct (negb (fs_existsSync p w)); reflexivity. Qed.

Lemma request_in_settle_main url a m r :
  In (HttpsRequest url a m) (trace (settle_main r)) ->
  In (HttpsRequest url a m) (trace (snd r)).
Proof.
  destruct r as [[[]|e|] w]; cbn [settle_main snd]; auto; intros Hin.
  - apply request_in_emit in Hin. destruct Hin as [Hin|Hin]; [exact Hin|discriminate].
  - apply request_in_emit in Hin. destruct Hin as [Hin|Hin]; [|discriminate].
    apply request_in_emit in Hin. destruct Hin as [Hin|Hin]; [exact Hin|discriminate].
Qed.

(** C10: when [getAccountId] throws and a license key is configured, the
    script logs the failure and goes on to [main] with [accountId]
    undefined; the URL of every edition then has the legacy shape with the
    license key as a query parameter, and no request of the run carries a
    basic-auth string.  Whether the script stops before [main] depends on the
    license key alone: it stops, with the help text and exit status 1, exactly
    when the key is missing, however [getAccountId] ended. *)
Theorem getAccountId_failure_is_not_fatal Date_parse https_accepts dirname key message
    selected w :
  key <> "" ->
  let w0 :=
    emit (ConsoleError message)
      (emit (ConsoleError "geolite2: Error retrieving Maxmind Account ID") w) in
  let downloadPath := path_join [dirname; ".."; "dbs"] in
  let run :=
    script Date_parse https_accepts dirname (Returns (Some key)) (Throws message)
      selected w in
  run = settle_main (main Date_parse https_accepts None key selected downloadPath
                       (ensure_directory downloadPath w0))
  /\ (forall edition,
        link None key edition =
          "https://download.maxmind.com/app/geoip_download?edition_id=" +:+ edition
            +:+ "&license_key=" +:+ key +:+ "&suffix=tar.gz")
  /\ (forall url a m,
        In (HttpsRequest url a m) (trace run) ->
        In (HttpsRequest url a m) (trace w)
        \/ (a = None
            /\ ((exists id, In id (editionIds selected) /\ url = link None key id)
                \/ (exists r, In (NetResponse r) (tape w)
                              /\ redirect_location r = Some url))))
  /\ (forall getLicense getAccountId,
        let '(licenseKey, wl) :=
          resolve "geolite2: Error retrieving Maxmind License Key" getLicense w in
        let '(accountId, wa) :=
          resolve "geolite2: Error retrieving Maxmind Account ID" getAccountId wl in
        script Date_parse https_accepts dirname getLicense getAccountId selected w =
          if truthy licenseKey
          then settle_main (main Date_parse https_accepts accountId
                              (default "" licenseKey) selected
                              downloadPath (ensure_directory downloadPath wa))
          else emit (ProcessExit 1) (emit (ConsoleError licenseKeyHelp) wa)).
Proof.
  intros Hkey w0 downloadPath run.
  assert (Hrun : run = settle_main (main Date_parse https_accepts None key selected
                                      downloadPath
                                      (ensure_directory downloadPath w0))).
  { unfold run, script. cbn [resolve truthy].
    destruct (String.eqb_spec key ""); [contradiction|]. reflexivity. }
  split; [exact Hrun|]. split; [reflexivity|]. split.
  - intros url a m Hin. rewrite Hrun in Hin.
    apply request_in_settle_main in Hin. rewrite main_unfold in Hin.
    destruct (main_loop_evolves Date_parse https_accepts None key downloadPath
                (fun e =>
                   match e with
                   | HttpsRequest url a _ =>
                       a = None
                       /\ ((exists id, In id (editionIds selected)
                                       /\ url = link None key id)
                           \/ (exists r, In (NetResponse r) (tape w)
                                         /\ redirect_location r = Some url))
                   | _ => True
                   end)
                (fun _ => I) (fun _ => conj I I)
                (editionIds selected)
                (emit (ConsoleLog "Downloading maxmind databases...")
                   (ensure_directory downloadPath w0)))
      as [(d & Hd & Hok) _].
    + intros r loc m' Hr Hloc. split; [reflexivity|]. right. exists r.
      split; [|exact Hloc]. rewrite tape_emit, tape_ensure_directory in Hr. exact Hr.
    + intros r _ p _ _. exact I.
    + intros id Hid. split; (split; [reflexivity|]); left; exists id; auto.
    + rewrite Hd in Hin. apply in_app_or in Hin. destruct Hin as [Hin|Hin].
      * left. apply request_in_emit in Hin. destruct Hin as [Hin|Hin]; [|discriminate].
        apply request_in_ensure_directory in Hin. unfold w0 in Hin.
        apply request_in_emit in Hin. destruct Hin as [Hin|Hin]; [|discriminate].
        apply request_in_emit in Hin. destruct Hin as [Hin|Hin]; [exact Hin|discriminate].
      * right. rewrite List.Forall_forall in Hok. apply (Hok _ Hin).
  - intros getLicense getAccountId. unfold script.
    destruct (resolve _ getLicense w) as [licenseKey wl].
    destruct (resolve _ getAccountId wl) as [accountId wa].
    destruct (truthy licenseKey); reflexivity.
Qed.

(** * The statements at sample runs *)

Lemma request_follows_every_redirect_at_two_redirects :
  let r := request sample_accepts (Some "12345") "KEY" "https://a.example/" noOptions two_redirects in
  trace (snd r) =
    [HttpsRequest "https://a.example/" (Some "12345:KEY") Absent;
     HttpsRequest "https://b.example/" None Absent;
     HttpsRequest "https://c.example/" None Absent]
  /\ tape (snd r) = []
  /\ fst r = Returned ok200.
Proof.
  apply (request_follows_every_redirect sample_accepts (Some "12345") "KEY"
           [found "https://b.example/"; found "https://c.example/"]
           ["https://b.example/"; "https://c.example/"]
           "https://a.example/" noOptions two_redirects ok200 []).
  - reflexivity.
  - repeat constructor.
  - repeat constructor.
  - reflexivity.
  - reflexivity.
Defined.

(** C1 as stated fails: a second consecutive redirect is followed too.  The
    claim has the second response, a 302, final, hence the request fail with
    its status after two requests; the code sends a third request and returns
    the 200 response it gets. *)
Lemma request_follows_second_redirect :
  let r := request sample_accepts (Some "12345") "KEY" "https://a.example/" noOptions two_redirects in
  fst r = Returned ok200
  /\ List.length (trace (snd r)) = 3
  /\ fst r <> Threw (RequestFailed "https://b.example/" 302 "Found").
Proof.
  cbv zeta. split; [reflexivity|]. split; [reflexivity|].
  intros H. vm_compute in H. discriminate H.
Qed.

Lemma request_returns_iff_200_at_samples :
  fst (request sample_accepts None "KEY" "https://a.example/" noOptions two_redirects) = Returned ok200
  /\ fst (request sample_accepts None "KEY" "https://a.example/" noOptions answers_204) =
       Threw (RequestFailed "https://a.example/" 204 "No Content").
Proof.
  split.
  - apply (request_returns_iff_200 sample_accepts None "KEY"
             [found "https://b.example/"; found "https://c.example/"]
             ["https://b.example/"; "https://c.example/"]
             "https://a.example/" noOptions two_redirects ok200 []);
      [reflexivity|repeat constructor|repeat constructor|reflexivity|reflexivity
      |reflexivity].
  - destruct (request_returns_iff_200 sample_accepts None "KEY" [] []
                "https://a.example/" noOptions answers_204 noContent204 [])
      as (_ & Hthrows & _);
      [reflexivity|constructor|constructor|reflexivity|reflexivity|].
    destruct Hthrows as (e & -> & He); [discriminate|].
    rewrite He; reflexivity.
Defined.

(** C2 as stated fails: a final status in the 2xx range other than 200 makes
    [request] throw instead of returning the response. *)
Lemma request_throws_on_204 :
  (200 <= statusCode noContent204 < 300)%Z
  /\ fst (request sample_accepts None "KEY" "https://a.example/" noOptions answers_204) =
       Threw (RequestFailed "https://a.example/" 204 "No Content")
  /\ fst (request sample_accepts None "KEY" "https://a.example/" noOptions answers_204) <>
       Returned noContent204.
Proof.
  split; [cbn; lia|]. split; [reflexivity|].
  intros H. vm_compute in H. discriminate H.
Qed.

Lemma extraction_resolves_after_end_and_writes_at_archive :
  exists delivered,
    schedule archive = delivered ++ []
    /\ In EvEnd delivered
    /\ forall i, i < registered delivered -> In (EvFinish i) delivered.
Proof.
  apply (extraction_resolves_after_end_and_writes "/pkg/dbs" archive
           (sample_world [] [])
           (snd (fst (extraction "/pkg/dbs" archive (sample_world [] [])))) []).
  - reflexivity.
  - reflexivity.
Defined.

Lemma isOutdated_decides_staleness_at_missing_file :
  isOutdated no_date sample_accepts None "KEY" "/pkg/dbs/GeoLite2-City.mmdb" "https://a.example/"
    two_redirects = (Returned true, two_redirects).
Proof.
  exact (isOutdated_decides_staleness no_date sample_accepts None "KEY" "/pkg/dbs/GeoLite2-City.mmdb"
           "https://a.example/" two_redirects).
Defined.

Lemma isOutdated_false_without_date_at_city_on_disk :
  isOutdated no_date sample_accepts None "KEY" "/pkg/dbs/GeoLite2-City.mmdb"
    (link None "KEY" "GeoLite2-City") city_on_disk =
    (Returned false,
     snd (request sample_accepts None "KEY" (link None "KEY" "GeoLite2-City") headOptions city_on_disk)).
Proof.
  apply (isOutdated_false_without_date no_date sample_accepts None "KEY" "/pkg/dbs" "GeoLite2-City"
           city_on_disk 1600000000000.5%Q ok200
           (snd (request sample_accepts None "KEY" (link None "KEY" "GeoLite2-City") headOptions
                   city_on_disk))).
  - reflexivity.
  - reflexivity.
  - left. reflexivity.
Defined.

Lemma link_by_accountId_presence_at_samples :
  (link (Some "12345") "KEY" "GeoLite2-City" =
     "https://download.maxmind.com/geoip/databases/GeoLite2-City/download?suffix=tar.gz"
   /\ request_auth (Some "12345") "KEY" noOptions = Some "12345:KEY")
  /\ (link None "KEY" "GeoLite2-City" =
        "https://download.maxmind.com/app/geoip_download?edition_id=GeoLite2-City&license_key=KEY&suffix=tar.gz"
      /\ request_auth None "KEY" noOptions = None).
Proof.
  split.
  - destruct (link_by_accountId_presence sample_accepts (Some "12345") "KEY" "GeoLite2-City")
      as [Hwith _].
    destruct (Hwith "12345" eq_refl) as (Hlink & Hauth & _); [discriminate|].
    split; [exact Hlink|exact Hauth].
  - destruct (link_by_accountId_presence sample_accepts None "KEY" "GeoLite2-City")
      as (_ & Hwithout & _).
    exact (Hwithout eq_refl).
Defined.


Lemma getAccountId_failure_is_not_fatal_at_sample :
  script no_date sample_accepts "/pkg/scripts" (Returns (Some "KEY")) (Throws "ENOENT") ["City"]
    city_then_404 =
  settle_main
    (main no_date sample_accepts None "KEY" ["City"] "/pkg/dbs"
       (ensure_directory "/pkg/dbs"
          (emit (ConsoleError "ENOENT")
             (emit (ConsoleError "geolite2: Error retrieving Maxmind Account ID")
                city_then_404)))).
Proof.
  apply (getAccountId_failure_is_not_fatal no_date sample_accepts "/pkg/scripts" "KEY" "ENOENT"
           ["City"] city_then_404).
  discriminate.
Defined.

(** Scenario E of the specification: of [GeoLite2-City.mmdb] and
    [COPYRIGHT.txt] only the database is written. *)
Example extraction_of_archive :
  created (trace (snd (fst (extraction "/pkg/dbs" archive (sample_world [] []))))) =
    ["/pkg/dbs/GeoLite2-City.mmdb"; "/pkg/dbs/GeoLite2-City-Blocks.mmdb"].
Proof. reflexivity. Qed.

(** A run with no account id: the failure is logged, the City archive is
    fetched from the legacy URL without auth and unpacked, and the script
    exits with status 0. *)
Example script_without_accountId :
  trace (script no_date sample_accepts "/pkg/scripts" (Returns (Some "KEY")) (Throws "ENOENT")
           ["City"] city_then_404) =
    [ConsoleError "geolite2: Error retrieving Maxmind Account ID";
     ConsoleError "ENOENT";
     MkdirSync "/pkg/dbs";
     ConsoleLog "Downloading maxmind databases...";
     ConsoleLog " > GeoLite2-City: Is either missing or outdated, downloading";
     HttpsRequest
       "https://download.maxmind.com/app/geoip_download?edition_id=GeoLite2-City&license_key=KEY&suffix=tar.gz"
       None Absent;
     ConsoleLog "writing /pkg/dbs/GeoLite2-City.mmdb ...";
     CreateWriteStream "/pkg/dbs/GeoLite2-City.mmdb";
     ConsoleLog "writing /pkg/dbs/GeoLite2-City-Blocks.mmdb ...";
     CreateWriteStream "/pkg/dbs/GeoLite2-City-Blocks.mmdb";
     ProcessExit 0].
Proof. reflexivity. Qed.

(** The path functions at the values the script meets. *)
Example downloadPath_of_scripts : path_join ["/pkg/scripts"; ".."; "dbs"] = "/pkg/dbs".
Proof. reflexivity. Qed.

Example basename_of_entry :
  path_basename "GeoLite2-City_20240101/GeoLite2-City.mmdb" = "GeoLite2-City.mmdb".
Proof. reflexivity. Qed.

Example endsWith_mmdb :
  endsWith "GeoLite2-City.mmdb" ".mmdb" = true
  /\ endsWith "COPYRIGHT.txt" ".mmdb" = false
  /\ endsWith "mmdb" ".mmdb" = false.
Proof. repeat split. Qed.

(** Scenario B of the specification: a local file newer than the server's
    [Last-Modified] is up to date; equal times are up to date as well. *)
Example js_lt_on_times :
  js_lt (Num 1700000000000.5%Q) (Num 1600000000000%Q) = false
  /\ js_lt (Num 1600000000000%Q) (Num 1600000000000%Q) = false
  /\ js_lt (Num 1600000000000%Q) (Num 1600000000000.5%Q) = true
  /\ js_lt (Num 1600000000000%Q) NaN = false.
Proof. repeat split. Qed.

(** * Further properties of the script *)

Section MoreProperties.

Variable Date_parse : string -> JsNum.
Variable https_accepts : string -> bool.
Variable accountId : option string.
Variable licenseKey : string.
Variable downloadPath : string.

Local Abbreviation link := (link accountId licenseKey).
Local Abbreviation request_auth := (request_auth accountId licenseKey).
Local Abbreviation request_on := (request_on https_accepts accountId licenseKey).
Local Abbreviation request := (request https_accepts accountId licenseKey).
Local Abbreviation isOutdated :=
  (isOutdated Date_parse https_accepts accountId licenseKey).
Local Abbreviation deliver := (deliver downloadPath).
Local Abbreviation await_all := (await_all downloadPath).
Local Abbreviation await_stream := (await_stream downloadPath).
Local Abbreviation extraction := (extraction downloadPath).
Local Abbreviation extract := (extract downloadPath).
Local Abbreviation main_iteration :=
  (main_iteration Date_parse https_accepts accountId licenseKey downloadPath).
Local Abbreviation main_loop :=
  (main_loop Date_parse https_accepts accountId licenseKey downloadPath).

(** ** More on [request] *)

Lemma request_on_chain_error hops :
  forall locations url options w err tp',
    Forall2 (fun r loc => redirect_location r = Some loc) hops locations ->
    Forall (fun loc => https_accepts loc = true) locations ->
    request_on (List.map NetResponse hops ++ NetError err :: tp') url options w =
      (Threw (Emitted err),
       {| files := files w; tape := tp'; clock := clock w;
          trace := trace w ++ HttpsRequest url (request_auth options) (method options)
                     :: reissued (method options) locations |}).
Proof.
  induction hops as [|hop hops IH]; intros locations url options w err tp' Hchain Hacc.
  - inversion Hchain; subst. reflexivity.
  - inversion Hchain as [|h loc hs locs Hloc Hrest]; subst.
    inversion Hacc as [|loc' locs' Hok Hoks]; subst.
    cbn [List.map app request_on]. rewrite Hloc, Hok.
    rewrite (IH locs loc _ _ err tp' Hrest Hoks).
    f_equal. cbn. rewrite <- app_assoc. reflexivity.
Qed.

(** X1: when the request, or the request re-issued for the last of any
    number of redirects to locations [https.request] accepts, ends with a
    transport error, [request] throws the error the ['error'] event carried;
    the requests of the chain were sent, the redirected ones without auth,
    and nothing further is consumed from the network. *)
Theorem request_throws_transport_error hops locations url options w err tp' :
  https_accepts url = true ->
  Forall2 (fun r loc => redirect_location r = Some loc) hops locations ->
  Forall (fun loc => https_accepts loc = true) locations ->
  tape w = List.map NetResponse hops ++ NetError err :: tp' ->
  fst (request url options w) = Threw (Emitted err)
  /\ trace (snd (request url options w)) =
       trace w ++ HttpsRequest url (request_auth options) (method options)
         :: List.map (fun loc => HttpsRequest loc None (method options)) locations
  /\ tape (snd (request url options w)) = tp'.
Proof.
  intros _ Hchain Hacc Htape. unfold request. rewrite Htape.
  rewrite (request_on_chain_error hops locations url options w err tp' Hchain Hacc).
  repeat split.
Qed.

Lemma request_on_shape tp :
  forall url options w,
    exists more,
      trace (snd (request_on tp url options w)) =
        trace w ++ HttpsRequest url (request_auth options) (method options) :: more
      /\ Forall (reissue_of tp (method options)) more.
Proof.
  induction tp as [|[response|err] tp IH]; intros url options w.
  - exists []. split; [reflexivity|constructor].
  - cbn [request_on].
    destruct (redirect_location response) as [loc|] eqn:Hloc.
    + destruct (https_accepts loc);
        [|exists []; split; [reflexivity|constructor]].
      destruct (IH loc {| method := method options; auth := Present None |}
                  (set_tape tp (emit (HttpsRequest url (request_auth options)
                                        (method options)) w)))
        as (more & Htrace & Hmore).
      exists (HttpsRequest loc None (method options) :: more). split.
      * rewrite Htrace. cbn. rewrite <- app_assoc. reflexivity.
      * constructor.
        -- exists response, loc. split; [left; reflexivity|]. auto.
        -- eapply Forall_impl; [exact Hmore|].
           intros e (r & l & Hin & Hl & ->). exists r, l. split; [right; exact Hin|]. auto.
    + exists []. split; [|constructor]. destruct (negb _); reflexivity.
  - exists []. split; [reflexivity|constructor].
Qed.

(** X2: whatever the network answers, only the first request of a call of
    [request] can carry credentials: every further request it sends goes to
    the location of a redirect response, with [auth] cleared and the method
    of the call. *)
Theorem request_never_forwards_credentials url options w :
  exists more,
    trace (snd (request url options w)) =
      trace w ++ HttpsRequest url (request_auth options) (method options) :: more
    /\ forall e, In e more ->
         exists r loc,
           In (NetResponse r) (tape w) /\ redirect_location r = Some loc
           /\ e = HttpsRequest loc None (method options).
Proof.
  destruct (request_on_shape (tape w) url options w) as (more & Htrace & Hmore).
  exists more. split; [exact Htrace|].
  rewrite List.Forall_forall in Hmore. exact Hmore.
Qed.

(** X3: a 3xx response without a [location] header, or with an empty one,
    is not followed: [request] throws the error carrying the URL and that
    status, after the one request. *)
Theorem request_fails_on_redirect_without_location url options w response tp' :
  tape w = NetResponse response :: tp' ->
  (300 <= statusCode response < 400)%Z ->
  truthy (headers response !! "location") = false ->
  request url options w =
    (Threw (RequestFailed url (statusCode response) (statusMessage response)),
     set_tape tp' (emit (HttpsRequest url (request_auth options) (method options)) w)).
Proof.
  intros Htape Hrange Hloc. unfold request. rewrite Htape.
  cbn [request_on].
  assert (Hnone : redirect_location response = None).
  { unfold redirect_location. destruct (_ && _)%bool; [|reflexivity].
    destruct (headers response !! "location") as [loc|]; [|reflexivity].
    rewrite Hloc. reflexivity. }
  rewrite Hnone.
  destruct (Z.eqb_spec (statusCode response) 200) as [Heq|Hne]; [lia|reflexivity].
Qed.

(** ** More on [isOutdated] *)

Lemma isOutdated_files dbPath url w :
  files (snd (isOutdated dbPath url w)) = files w.
Proof.
  unfold isOutdated.
  destruct (negb (fs_existsSync dbPath w)); [reflexivity|].
  unfold bind.
  pose proof (request_on_files https_accepts accountId licenseKey (tape w) url
                {| method := Present "HEAD"; auth := Absent |} w) as Hf.
  unfold request.
  destruct (request_on (tape w) url _ w) as [[response|e|] w1];
    cbn [snd] in *; auto.
  unfold fs_statSync_mtimeMs. destruct (files w1 !! dbPath); exact Hf.
Qed.

Lemma isOutdated_shape dbPath url w :
  exists d,
    trace (snd (isOutdated dbPath url w)) = trace w ++ d
    /\ Forall (fun e => exists u a, e = HttpsRequest u a (Present "HEAD")) d.
Proof.
  unfold isOutdated.
  destruct (negb (fs_existsSync dbPath w)).
  { exists []. rewrite app_nil_r. split; [reflexivity|constructor]. }
  unfold bind.
  destruct (request_on_shape (tape w) url headOptions w) as (more & Htrace & Hmore).
  change {| method := Present "HEAD"; auth := Absent |} with headOptions.
  unfold request.
  exists (HttpsRequest url (request_auth headOptions) (Present "HEAD") :: more).
  split.
  - destruct (request_on (tape w) url headOptions w) as [[response|e|] w1];
      cbn [snd] in *; try exact Htrace.
    unfold fs_statSync_mtimeMs. destruct (files w1 !! dbPath); exact Htrace.
  - constructor; [eauto|].
    eapply Forall_impl; [exact Hmore|]. intros e (r & loc & _ & _ & ->). eauto.
Qed.

(** X4: the staleness check is read-only: whatever its outcome, [isOutdated]
    leaves every file as it was, and the only effects it has are HEAD
    requests (the one it makes and those re-issued for redirects). *)
Theorem isOutdated_only_sends_HEAD dbPath url w :
  files (snd (isOutdated dbPath url w)) = files w
  /\ exists d,
       trace (snd (isOutdated dbPath url w)) = trace w ++ d
       /\ forall e, In e d -> exists u a, e = HttpsRequest u a (Present "HEAD").
Proof.
  split; [apply isOutdated_files|].
  destruct (isOutdated_shape dbPath url w) as (d & Hd & Hall).
  exists d. split; [exact Hd|]. rewrite List.Forall_forall in Hall. exact Hall.
Qed.

(** ** More on the extraction stage *)

Lemma deliver_all_app a :
  forall b ps w,
    deliver_all downloadPath (a ++ b) ps w =
      deliver_all downloadPath b (fst (deliver_all downloadPath a ps w))
        (snd (deliver_all downloadPath a ps w)).
Proof.
  induction a as [|ev a IH]; intros b ps w; [reflexivity|].
  cbn [app deliver_all]. destruct (deliver ev ps w) as [ps1 w1]. apply IH.
Qed.

Lemma registered_cons ev evs :
  registered (ev :: evs) =
    match ev with
    | EvEntry p => if is_mmdb p then S (registered evs) else registered evs
    | _ => registered evs
    end.
Proof.
  destruct ev as [p| |err|i|i err|i|err]; try reflexivity.
  unfold registered. cbn [entry_paths List.filter]. destruct (is_mmdb p); reflexivity.
Qed.

Lemma settle_lookup i s ps j :
  settle i s ps !! j =
    if decide (i = j)
    then match ps !! j with
         | Some Unsettled => Some s
         | o => o
         end
    else ps !! j.
Proof.
  unfold settle. destruct (decide (i = j)) as [->|Hne].
  - destruct (ps !! j) as [[| |e]|] eqn:Hj; rewrite ?Hj; try reflexivity.
    apply list_lookup_insert_eq. eapply lookup_lt_Some. exact Hj.
  - destruct (ps !! i) as [[| |e]|]; try reflexivity.
    apply list_lookup_insert_ne. exact Hne.
Qed.

(** *** The array [entryPromises] and the history of events *)

Lemma deliver_all_lookup evs :
  forall ps w i,
    fst (deliver_all downloadPath evs ps w) !! i =
      match ps !! i with
      | Some Unsettled => Some (settling i (List.length ps) evs)
      | Some s => Some s
      | None =>
          if (i <? List.length ps + registered evs)%nat
          then Some (settling i (List.length ps) evs)
          else None
      end.
Proof.
  induction evs as [|ev evs IH]; intros ps w i.
  - cbn [deliver_all fst settling]. destruct (ps !! i) as [[| |e]|] eqn:Hi; try reflexivity.
    apply lookup_ge_None in Hi.
    destruct (Nat.ltb_spec i (List.length ps + registered [])); [|reflexivity].
    cbn in *. lia.
  - cbn [deliver_all]. rewrite registered_cons.
    destruct ev as [p| |err|j|j err|j|err]; cbn [deliver settling].
    + unfold on_entry. fold (is_mmdb p). destruct (is_mmdb p).
      * rewrite IH. rewrite List.length_app. cbn [List.length].
        replace (List.length ps + 1) with (S (List.length ps)) by lia.
        destruct (lt_eq_lt_dec i (List.length ps)) as [[Hlt|Heq]|Hgt].
        -- rewrite lookup_app_l by exact Hlt.
           destruct (lookup_lt_is_Some_2 ps i Hlt) as [x Hx]. rewrite Hx. reflexivity.
        -- subst i. rewrite lookup_app_r by lia. rewrite Nat.sub_diag. cbn [lookup list_lookup].
           rewrite (proj2 (lookup_ge_None ps (List.length ps))) by lia.
           destruct (Nat.ltb_spec (List.length ps) (List.length ps + S (registered evs)));
             [reflexivity|lia].
        -- rewrite (proj2 (lookup_ge_None (ps ++ [Unsettled]) i))
             by (rewrite List.length_app; cbn; lia).
           rewrite (proj2 (lookup_ge_None ps i)) by lia.
           replace (S (List.length ps) + registered evs)
             with (List.length ps + S (registered evs)) by lia.
           reflexivity.
      * apply IH.
    + apply IH.
    + apply IH.
    + rewrite IH, settle_length, settle_lookup.
      destruct (decide (j = i)) as [->|Hne].
      * rewrite Nat.eqb_refl. cbn [andb].
        destruct (ps !! i) as [[| |e]|] eqn:Hi; try reflexivity.
        -- apply lookup_lt_Some in Hi. apply Nat.ltb_lt in Hi. rewrite Hi. reflexivity.
        -- apply lookup_ge_None in Hi.
           destruct (Nat.ltb_spec i (List.length ps)); [lia|]. reflexivity.
      * apply Nat.eqb_neq in Hne. rewrite Hne. reflexivity.
    + rewrite IH, settle_length, settle_lookup.
      destruct (decide (j = i)) as [->|Hne].
      * rewrite Nat.eqb_refl. cbn [andb].
        destruct (ps !! i) as [[| |e]|] eqn:Hi; try reflexivity.
        -- apply lookup_lt_Some in Hi. apply Nat.ltb_lt in Hi. rewrite Hi. reflexivity.
        -- apply lookup_ge_None in Hi.
           destruct (Nat.ltb_spec i (List.length ps)); [lia|]. reflexivity.
      * apply Nat.eqb_neq in Hne. rewrite Hne. reflexivity.
    + apply IH.
    + apply IH.
Qed.

Lemma deliver_all_length evs ps w :
  List.length (fst (deliver_all downloadPath evs ps w)) = List.length ps + registered evs.
Proof.
  revert ps w. induction evs as [|ev evs IH]; intros ps w.
  - cbn. unfold registered. cbn. lia.
  - cbn [deliver_all]. rewrite registered_cons.
    destruct ev as [p| |err|j|j err|j|err]; cbn [deliver];
      rewrite ?IH, ?settle_length; try reflexivity.
    unfold on_entry. fold (is_mmdb p). destruct (is_mmdb p); rewrite IH; [|reflexivity].
    rewrite List.length_app. cbn. lia.
Qed.

(** From nothing, the array holds for every stream opened what the history
    made of it. *)
Lemma entryPromises_follow_history evs w i :
  i < registered evs ->
  fst (deliver_all downloadPath evs [] w) !! i = Some (settling i 0 evs).
Proof.
  intros Hi. rewrite deliver_all_lookup.
  rewrite (proj2 (lookup_ge_None (@nil PromiseState) i)) by (cbn; lia).
  cbn [List.length].
  destruct (Nat.ltb_spec i (0 + registered evs)); [reflexivity|lia].
Qed.

Lemma settling_app i a :
  forall opened b,
    settling i opened (a ++ b) =
      match settling i opened a with
      | Unsettled => settling i (opened + registered a) b
      | s => s
      end.
Proof.
  induction a as [|ev a IH]; intros opened b.
  - cbn. unfold registered. cbn. rewrite Nat.add_0_r. reflexivity.
  - rewrite registered_cons. destruct ev as [p| |err|j|j err|j|err]; cbn [app settling].
    + rewrite IH. destruct (is_mmdb p).
      * replace (S opened + registered a) with (opened + S (registered a)) by lia.
        reflexivity.
      * reflexivity.
    + apply IH.
    + apply IH.
    + destruct ((j =? i)%nat && (i <? opened)%nat); [reflexivity|apply IH].
    + destruct ((j =? i)%nat && (i <? opened)%nat); [reflexivity|apply IH].
    + apply IH.
    + apply IH.
Qed.

(** A stream that was never opened does not settle. *)
Lemma settling_unopened i evs :
  forall opened, opened + registered evs <= i -> settling i opened evs = Unsettled.
Proof.
  induction evs as [|ev evs IH]; intros opened Hle; [reflexivity|].
  rewrite registered_cons in Hle.
  destruct ev as [p| |err|j|j err|j|err]; cbn [settling]; try (apply IH; exact Hle).
  - destruct (is_mmdb p); apply IH; lia.
  - destruct (Nat.ltb_spec i opened); [lia|]. rewrite andb_false_r. apply IH. exact Hle.
  - destruct (Nat.ltb_spec i opened); [lia|]. rewrite andb_false_r. apply IH. exact Hle.
Qed.

Lemma first_rejection_Some ps e :
  first_rejection ps = Some e -> exists i, ps !! i = Some (Rejected e).
Proof.
  induction ps as [|p ps IH]; [discriminate|].
  destruct p as [| |e']; cbn [first_rejection].
  - intros H. destruct (IH H) as [i Hi]. exists (S i). exact Hi.
  - intros H. destruct (IH H) as [i Hi]. exists (S i). exact Hi.
  - intros [= ->]. exists 0. reflexivity.
Qed.

Lemma first_rejection_None ps :
  (forall i e, ps !! i <> Some (Rejected e)) -> first_rejection ps = None.
Proof.
  induction ps as [|p ps IH]; intros Hno; [reflexivity|].
  destruct p as [| |e]; cbn [first_rejection].
  - apply IH. intros i e. apply (Hno (S i) e).
  - apply IH. intros i e. apply (Hno (S i) e).
  - exfalso. apply (Hno 0 e). reflexivity.
Qed.

Lemma forallb_fulfilled ps :
  (forall i, i < List.length ps -> ps !! i = Some Fulfilled) ->
  forallb is_fulfilled ps = true.
Proof.
  induction ps as [|p ps IH]; intros Hall; [reflexivity|].
  cbn [forallb]. apply andb_true_iff. split.
  - specialize (Hall 0 ltac:(cbn; lia)). injection Hall as ->. reflexivity.
  - apply IH. intros i Hi. apply (Hall (S i)). cbn. lia.
Qed.

Lemma open_entries_before_end pre :
  forall post,
    existsb is_stream_end pre = false ->
    entries_before_end (pre ++ EvEnd :: post) = true ->
    entry_paths post = [].
Proof.
  induction pre as [|ev pre IH]; intros post Hopen Hord.
  - apply entries_before_end_End. exact Hord.
  - cbn [existsb] in Hopen. apply orb_false_iff in Hopen. destruct Hopen as [Hev Hpre].
    destruct ev as [p| |err|j|j err|j|err]; try discriminate; apply IH; auto.
Qed.

(** *** Write streams that fail while nothing handles their promise *)

Lemma unhandled_rejection_watched ev n ps :
  List.length ps <= n -> unhandled_rejection ev n ps = None.
Proof.
  intros Hlen. destruct ev as [p| |err|i|i err|i|err]; try reflexivity.
  cbn [unhandled_rejection]. destruct (ps !! i) as [[| |e]|] eqn:Hi; try reflexivity.
  apply lookup_lt_Some in Hi. destruct (Nat.ltb_spec i n); [reflexivity|lia].
Qed.

Lemma no_early_failure_start evs :
  (forall i e, settling i 0 evs <> Rejected e) -> no_early_failure [] evs.
Proof. intros Hno i e Hs. exfalso. apply (Hno i e). exact Hs. Qed.

Lemma no_early_failure_step ev evs ps w :
  is_stream_end ev = false ->
  no_early_failure ps (ev :: evs) ->
  unhandled_rejection ev 0 ps = None
  /\ no_early_failure (fst (deliver ev ps w)) evs.
Proof.
  intros Hev Hno. unfold no_early_failure in *.
  destruct ev as [p| |err|j|j err|j|err]; try discriminate;
    cbn [unhandled_rejection deliver fst settling] in *.
  - split; [reflexivity|]. unfold on_entry. fold (is_mmdb p).
    destruct (is_mmdb p); cbn [fst]; [|exact Hno].
    intros i e Hs. rewrite List.length_app in Hs. cbn [List.length] in Hs.
    replace (List.length ps + 1) with (S (List.length ps)) in Hs by lia.
    destruct (Hno i e Hs) as (s & Hi & Hs'). exists s. split; [|exact Hs'].
    rewrite lookup_app_l; [exact Hi|]. eapply lookup_lt_Some. exact Hi.
  - split; [reflexivity|]. intros i e Hs. rewrite settle_length in Hs.
    rewrite settle_lookup. specialize (Hno i e).
    destruct (decide (j = i)) as [->|Hne].
    + rewrite Nat.eqb_refl in Hno. cbn [andb] in Hno.
      destruct (ps !! i) as [[| |e']|] eqn:Hi.
      * exists Fulfilled. split; [reflexivity|discriminate].
      * exists Fulfilled. split; [reflexivity|discriminate].
      * exists (Rejected e'). split; [reflexivity|discriminate].
      * apply lookup_ge_None in Hi.
        destruct (Nat.ltb_spec i (List.length ps)); [lia|].
        destruct (Hno Hs) as (s & Habs & _). discriminate.
    + apply Nat.eqb_neq in Hne. rewrite Hne in Hno. cbn [andb] in Hno. exact (Hno Hs).
  - assert (Hj : forall s, ps !! j = Some s -> s <> Unsettled).
    { intros s Hs. pose proof (lookup_lt_Some _ _ _ Hs) as Hlt.
      specialize (Hno j (Emitted err)). rewrite Nat.eqb_refl in Hno.
      apply Nat.ltb_lt in Hlt. rewrite Hlt in Hno. cbn [andb] in Hno.
      destruct (Hno eq_refl) as (s' & Hs' & Hne). congruence. }
    split.
    + destruct (ps !! j) as [[| |e]|] eqn:Hjs; try reflexivity.
      exfalso. apply (Hj Unsettled); reflexivity.
    + intros i e Hs. rewrite settle_length in Hs. rewrite settle_lookup.
      specialize (Hno i e).
      destruct (decide (j = i)) as [->|Hne].
      * rewrite Nat.eqb_refl in Hno. cbn [andb] in Hno.
        destruct (ps !! i) as [s|] eqn:Hi.
        -- pose proof (Hj s eq_refl) as Hsettled.
           destruct s; [congruence| |]; eexists; split; try reflexivity; discriminate.
        -- apply lookup_ge_None in Hi.
           destruct (Nat.ltb_spec i (List.length ps)); [lia|].
           destruct (Hno Hs) as (s & Habs & _). discriminate.
      * apply Nat.eqb_neq in Hne. rewrite Hne in Hno. cbn [andb] in Hno. exact (Hno Hs).
  - split; [reflexivity|exact Hno].
Qed.

(** While the tar stream is open and no write fails, [main] waits and the
    events go through the listeners. *)
Lemma await_stream_open pre :
  forall tail ps w,
    existsb is_stream_end pre = false ->
    no_early_failure ps pre ->
    await_stream (pre ++ tail) ps w =
      await_stream tail (fst (deliver_all downloadPath pre ps w))
        (snd (deliver_all downloadPath pre ps w)).
Proof.
  induction pre as [|ev pre IH]; intros tail ps w Hopen Hno; [reflexivity|].
  cbn [existsb] in Hopen. apply orb_false_iff in Hopen. destruct Hopen as [Hev Hpre].
  destruct (no_early_failure_step ev pre ps w Hev Hno) as [Hcalm Hno'].
  assert (Hstep : await_stream ((ev :: pre) ++ tail) ps w =
                  let '(ps1, w1) := deliver ev ps w in await_stream (pre ++ tail) ps1 w1).
  { destruct ev as [p| |err|i|i err|i|err]; try discriminate;
      cbn [app await_stream]; rewrite ?Hcalm; reflexivity. }
  rewrite Hstep. cbn [deliver_all].
  destruct (deliver ev ps w) as [ps1 w1]. cbn [fst] in Hno'. apply IH; assumption.
Qed.

(** What [await Promise.all(...)] comes to when it watches every promise
    there is: it delivers events until the promises settle it, or until
    there is no event left. *)
Lemma await_all_run sched :
  forall n ps w,
    entry_paths sched = [] ->
    List.length ps <= n ->
    exists more,
      sched = more ++ snd (await_all sched n ps w)
      /\ snd (fst (await_all sched n ps w)) = snd (deliver_all downloadPath more ps w)
      /\ fst (fst (await_all sched n ps w)) =
           Promise_all (take n (fst (deliver_all downloadPath more ps w)))
      /\ (fst (fst (await_all sched n ps w)) = Pending ->
          snd (await_all sched n ps w) = []).
Proof.
  induction sched as [|ev sched IH]; intros n ps w Hent Hlen.
  - exists []. cbn [await_all deliver_all app fst snd].
    destruct (Promise_all (take n ps)) eqn:Hall; cbn [fst snd]; auto.
  - cbn [await_all].
    destruct (Promise_all (take n ps)) eqn:Hall.
    + exists []. cbn [deliver_all app fst snd]. rewrite Hall.
      repeat split. discriminate.
    + exists []. cbn [deliver_all app fst snd]. rewrite Hall.
      repeat split. discriminate.
    + rewrite (unhandled_rejection_watched ev n ps Hlen).
      assert (Hev : entry_paths [ev] = [] /\ entry_paths sched = []).
      { change (ev :: sched) with ([ev] ++ sched) in Hent.
        rewrite entry_paths_app in Hent. apply app_eq_nil in Hent. exact Hent. }
      destruct Hev as [Hev Hsched].
      pose proof (deliver_keeps_length downloadPath ev ps w Hev) as Hkeep.
      destruct (deliver ev ps w) as [ps1 w1] eqn:Hd. cbn [fst] in Hkeep.
      destruct (IH n ps1 w1 Hsched ltac:(lia)) as (more & Heq & Hw & Ho & Hp).
      exists (ev :: more). cbn [app deliver_all]. rewrite Hd.
      split; [rewrite <- Heq; reflexivity|]. auto.
Qed.

(** The extraction stage once the tar stream has ended, in terms of the
    history of events: it stops at the first moment the streams opened
    before ['end'] settle [Promise.all], or runs out of events. *)
Lemma extraction_after_end response w pre post :
  schedule response = pre ++ EvEnd :: post ->
  existsb is_stream_end pre = false ->
  (forall i e, settling i 0 pre <> Rejected e) ->
  entry_paths post = [] ->
  exists more,
    post = more ++ snd (extraction response w)
    /\ snd (fst (extraction response w)) =
         snd (deliver_all downloadPath (pre ++ EvEnd :: more) [] w)
    /\ fst (fst (extraction response w)) =
         Promise_all
           (take (registered pre)
              (fst (deliver_all downloadPath (pre ++ EvEnd :: more) [] w)))
    /\ (fst (fst (extraction response w)) = Pending -> snd (extraction response w) = []).
Proof.
  intros Hsched Hopen Hno Hent. unfold extraction. rewrite Hsched.
  rewrite (await_stream_open pre _ [] w Hopen (no_early_failure_start pre Hno)).
  cbn [await_stream].
  destruct (await_all_run post
              (List.length (fst (deliver_all downloadPath pre [] w)))
              (fst (deliver_all downloadPath pre [] w))
              (snd (deliver_all downloadPath pre [] w)) Hent (Nat.le_refl _))
    as (more & Heq & Hworld & Hout & Hpend).
  exists more. split; [exact Heq|].
  rewrite (deliver_all_app pre (EvEnd :: more) [] w).
  split; [exact Hworld|]. split; [|exact Hpend].
  rewrite Hout. rewrite deliver_all_length. cbn [List.length Nat.add]. reflexivity.
Qed.

(** X5: when the tar stream emits ['error'] before it has ended, no write
    stream having failed before, the extraction stage fails with that error
    at once, whatever entries were delivered before and whether or not their
    writes have finished; the events after the error are not waited for. *)
Theorem extraction_rejects_on_stream_error response w pre err post :
  schedule response = pre ++ EvError err :: post ->
  existsb is_stream_end pre = false ->
  (forall i e, settling i 0 pre <> Rejected e) ->
  fst (fst (extraction response w)) = Threw (Emitted err)
  /\ snd (extraction response w) = post.
Proof.
  intros Hsched Hopen Hno. unfold extraction. rewrite Hsched.
  rewrite (await_stream_open pre _ [] w Hopen (no_early_failure_start pre Hno)).
  split; reflexivity.
Qed.

(** X6: as long as the tar stream emits neither ['end'] nor ['error'], the
    streams that feed it emit no ['error'] and no write stream fails, the
    extraction stage does not settle and the process goes on, however many
    entries are delivered and however many writes finish. *)
Theorem extraction_pending_without_end response w :
  existsb is_stream_end (schedule response) = false ->
  (forall i e, settling i 0 (schedule response) <> Rejected e) ->
  extraction response w =
    (Pending, snd (deliver_all downloadPath (schedule response) [] w), []).
Proof.
  intros Hopen Hno. unfold extraction.
  rewrite <- (app_nil_r (schedule response)) at 1.
  rewrite (await_stream_open (schedule response) [] [] w Hopen
             (no_early_failure_start _ Hno)).
  reflexivity.
Qed.

Lemma deliver_all_without_databases pre :
  forall w,
    List.filter is_mmdb (entry_paths pre) = [] ->
    deliver_all downloadPath pre [] w = ([], w).
Proof.
  induction pre as [|ev pre IH]; intros w Hnone; [reflexivity|].
  destruct ev as [p| |err|i|i err|i|err]; cbn [deliver_all deliver entry_paths] in *;
    try (apply IH; exact Hnone).
  cbn [List.filter] in Hnone. unfold on_entry. fold (is_mmdb p).
  destruct (is_mmdb p); [discriminate|]. apply IH. exact Hnone.
Qed.

(** X7: an archive without any [.mmdb] entry is unpacked to nothing: at the
    ['end'] of the tar stream the stage completes at once, having written no
    file, logged nothing and left the world as it was. *)
Theorem extraction_without_databases response w pre post :
  schedule response = pre ++ EvEnd :: post ->
  existsb is_stream_end pre = false ->
  List.filter is_mmdb (entry_paths pre) = [] ->
  extraction response w = (Returned tt, w, post).
Proof.
  intros Hsched Hopen Hnone. unfold extraction. rewrite Hsched.
  assert (Hno : forall i e, settling i 0 pre <> Rejected e).
  { intros i e. rewrite settling_unopened; [discriminate|].
    unfold registered. rewrite Hnone. cbn. lia. }
  rewrite (await_stream_open pre _ [] w Hopen (no_early_failure_start pre Hno)).
  rewrite (deliver_all_without_databases pre w Hnone).
  cbn [fst snd await_stream List.length]. destruct post; reflexivity.
Qed.

(** *** How the stage fails, and how it completes *)

Lemma deliver_rejections ev ps w delivered :
  rejections_from delivered ps ->
  rejections_from (delivered ++ [ev]) (fst (deliver ev ps w)).
Proof.
  intros Hinv i e Hi.
  assert (Hold : ps !! i = Some (Rejected e) ->
                 exists err, e = Emitted err /\ In (EvWriteError i err) (delivered ++ [ev])).
  { intros H. destruct (Hinv i e H) as (err & -> & Hin). exists err.
    split; [reflexivity|]. apply in_or_app. left. exact Hin. }
  destruct ev as [p| |err|j|j err|j|err]; cbn [deliver fst] in Hi; auto.
  - unfold on_entry in Hi. destruct (endsWith p ".mmdb"); cbn [fst] in Hi; auto.
    apply Hold. destruct (decide (i < List.length ps)) as [Hlt|Hge].
    + rewrite lookup_app_l in Hi by exact Hlt. exact Hi.
    + rewrite lookup_app_r in Hi by lia.
      destruct (i - List.length ps) as [|k]; cbn in Hi; discriminate.
  - rewrite settle_lookup in Hi. destruct (decide (j = i)) as [->|Hne]; auto.
    destruct (ps !! i) as [[| |e']|]; auto; discriminate.
  - rewrite settle_lookup in Hi. destruct (decide (j = i)) as [->|Hne]; auto.
    destruct (ps !! i) as [[| |e']|] eqn:Hps; auto; try discriminate.
    injection Hi as <-. exists err. split; [reflexivity|].
    apply in_or_app. right. left. reflexivity.
Qed.

Lemma Promise_all_Threw n ps delivered e :
  rejections_from delivered ps ->
  Promise_all (take n ps) = Threw e ->
  exists err i, e = Emitted err /\ In (EvWriteError i err) delivered.
Proof.
  intros Hinv Hall. unfold Promise_all in Hall.
  destruct (first_rejection (take n ps)) as [e'|] eqn:Hrej;
    [|destruct (forallb _ _); discriminate].
  injection Hall as ->. apply first_rejection_Some in Hrej. destruct Hrej as [i Hi].
  apply lookup_take_Some in Hi. destruct Hi as [Hi _].
  destruct (Hinv i e Hi) as (err & -> & Hin). eauto.
Qed.

Lemma await_all_Threw sched :
  forall n ps w delivered e,
    rejections_from delivered ps ->
    fst (fst (await_all sched n ps w)) = Threw e ->
    exists more err i,
      sched = more ++ snd (await_all sched n ps w)
      /\ e = Emitted err /\ In (EvWriteError i err) (delivered ++ more).
Proof.
  induction sched as [|ev sched IH]; intros n ps w delivered e Hinv Hthrew;
    cbn [await_all] in *.
  - destruct (Promise_all (take n ps)) as [[]|e'|] eqn:Hall; try discriminate.
    injection Hthrew as ->.
    destruct (Promise_all_Threw n ps delivered e Hinv Hall) as (err & i & -> & Hin).
    exists [], err, i. rewrite (app_nil_r delivered). auto.
  - destruct (Promise_all (take n ps)) as [[]|e'|] eqn:Hall; try discriminate.
    + injection Hthrew as ->.
      destruct (Promise_all_Threw n ps delivered e Hinv Hall) as (err & i & -> & Hin).
      exists [], err, i. rewrite (app_nil_r delivered). auto.
    + destruct (unhandled_rejection ev n ps); [discriminate|].
      pose proof (deliver_rejections ev ps w delivered Hinv) as Hinv'.
      destruct (deliver ev ps w) as [ps1 w1]. cbn [fst] in Hinv'.
      destruct (IH n ps1 w1 (delivered ++ [ev]) e Hinv' Hthrew)
        as (more & err & i & Heq & -> & Hin).
      exists (ev :: more), err, i. split; [cbn; rewrite <- Heq; reflexivity|].
      split; [reflexivity|]. rewrite <- app_assoc in Hin. exact Hin.
Qed.

Lemma await_stream_Threw sched :
  forall ps w delivered e,
    rejections_from delivered ps ->
    fst (fst (await_stream sched ps w)) = Threw e ->
    exists more err,
      sched = more ++ snd (await_stream sched ps w)
      /\ e = Emitted err
      /\ (In (EvError err) more \/ exists i, In (EvWriteError i err) (delivered ++ more)).
Proof.
  induction sched as [|ev sched IH]; intros ps w delivered e Hinv Hthrew;
    [discriminate|].
  assert (Hstep : forall ps1 w1,
             deliver ev ps w = (ps1, w1) ->
             fst (fst (await_stream sched ps1 w1)) = Threw e ->
             exists more err,
               ev :: sched = more ++ snd (await_stream sched ps1 w1)
               /\ e = Emitted err
               /\ (In (EvError err) more
                   \/ exists i, In (EvWriteError i err) (delivered ++ more))).
  { intros ps1 w1 Hd Hrun.
    pose proof (deliver_rejections ev ps w delivered Hinv) as Hinv'.
    rewrite Hd in Hinv'. cbn [fst] in Hinv'.
    destruct (IH ps1 w1 (delivered ++ [ev]) e Hinv' Hrun) as (more & err & Heq & -> & Hin).
    exists (ev :: more), err. split; [cbn; rewrite <- Heq; reflexivity|].
    split; [reflexivity|]. destruct Hin as [Hin|[i Hin]].
    - left. right. exact Hin.
    - right. exists i. rewrite <- app_assoc in Hin. exact Hin. }
  destruct ev as [p| |err|i|i err|i|err]; cbn [await_stream unhandled_rejection] in *.
  - destruct (deliver (EvEntry p) ps w) as [ps1 w1] eqn:Hd. eauto.
  - pose proof (deliver_rejections EvEnd ps w delivered Hinv) as Hinv'.
    cbn [deliver fst] in Hinv'.
    destruct (await_all_Threw sched (List.length ps) ps w (delivered ++ [EvEnd]) e
                Hinv' Hthrew) as (more & err & i & Heq & -> & Hin).
    exists (EvEnd :: more), err. split; [cbn; rewrite <- Heq; reflexivity|].
    split; [reflexivity|]. right. exists i. rewrite <- app_assoc in Hin. exact Hin.
  - injection Hthrew as <-. exists [EvError err], err.
    split; [reflexivity|]. split; [reflexivity|]. left. left. reflexivity.
  - destruct (deliver (EvFinish i) ps w) as [ps1 w1] eqn:Hd. eauto.
  - destruct (ps !! i) as [[| |e']|]; cbn [Nat.ltb Nat.leb fst snd] in *;
      [discriminate|..];
      destruct (deliver (EvWriteError i err) ps w) as [ps1 w1] eqn:Hd; eauto.
  - destruct (deliver (EvOpen i) ps w) as [ps1 w1] eqn:Hd. eauto.
  - discriminate.
Qed.

Lemma extraction_Threw_cases response w e :
  fst (fst (extraction response w)) = Threw e ->
  exists delivered err,
    schedule response = delivered ++ snd (extraction response w)
    /\ e = Emitted err
    /\ (In (EvError err) delivered \/ exists i, In (EvWriteError i err) delivered).
Proof.
  intros Hthrew. unfold extraction in *.
  assert (Hinv : rejections_from [] []).
  { intros i e' Hi. destruct i; discriminate. }
  destruct (await_stream_Threw (schedule response) [] w [] e Hinv Hthrew)
    as (more & err & Heq & -> & Hin).
  exists more, err. auto.
Qed.

(** X8: the extraction stage fails only with an error that an ['error']
    event carried: the tar stream's, or that of a write stream opened for an
    entry. *)
Theorem extraction_failure_was_emitted response w e :
  fst (fst (extraction response w)) = Threw e ->
  exists delivered err,
    schedule response = delivered ++ snd (extraction response w)
    /\ e = Emitted err
    /\ (In (EvError err) delivered \/ exists i, In (EvWriteError i err) delivered).
Proof. apply extraction_Threw_cases. Qed.

Lemma await_all_Returned sched :
  forall n ps w w' rest,
    await_all sched n ps w = (Returned tt, w', rest) ->
    exists more,
      sched = more ++ rest
      /\ Promise_all (take n (fst (deliver_all downloadPath more ps w))) = Returned tt.
Proof.
  induction sched as [|ev sched IH]; intros n ps w w' rest Hrun; cbn [await_all] in Hrun.
  - destruct (Promise_all (take n ps)) as [[]|e|] eqn:Hall; try discriminate.
    injection Hrun as <- <-. exists []. auto.
  - destruct (Promise_all (take n ps)) as [[]|e|] eqn:Hall; try discriminate.
    + injection Hrun as <- <-. exists []. auto.
    + destruct (unhandled_rejection ev n ps); [discriminate|].
      destruct (deliver ev ps w) as [ps1 w1] eqn:Hd.
      destruct (IH n ps1 w1 w' rest Hrun) as (more & -> & Hall').
      exists (ev :: more). split; [reflexivity|].
      cbn [deliver_all]. rewrite Hd. exact Hall'.
Qed.

Lemma await_stream_Returned sched :
  forall ps w w' rest,
    await_stream sched ps w = (Returned tt, w', rest) ->
    exists pre more,
      sched = pre ++ EvEnd :: more ++ rest
      /\ existsb is_stream_end pre = false
      /\ Promise_all
           (take (List.length (fst (deliver_all downloadPath pre ps w)))
              (fst (deliver_all downloadPath (pre ++ EvEnd :: more) ps w)))
         = Returned tt.
Proof.
  induction sched as [|ev sched IH]; intros ps w w' rest Hrun; [discriminate|].
  assert (Hstep : forall ps1 w1,
             is_stream_end ev = false ->
             deliver ev ps w = (ps1, w1) ->
             await_stream sched ps1 w1 = (Returned tt, w', rest) ->
             exists pre more,
               ev :: sched = pre ++ EvEnd :: more ++ rest
               /\ existsb is_stream_end pre = false
               /\ Promise_all
                    (take (List.length (fst (deliver_all downloadPath pre ps w)))
                       (fst (deliver_all downloadPath (pre ++ EvEnd :: more) ps w)))
                  = Returned tt).
  { intros ps1 w1 Hev Hd Hrun'.
    destruct (IH ps1 w1 w' rest Hrun') as (pre & more & -> & Hopen & Hall).
    exists (ev :: pre), more. split; [reflexivity|].
    split; [cbn [existsb]; rewrite Hev, Hopen; reflexivity|].
    cbn [app deliver_all]. rewrite Hd. exact Hall. }
  destruct ev as [p| |err|i|i err|i|err]; cbn [await_stream unhandled_rejection] in Hrun.
  - destruct (deliver (EvEntry p) ps w) as [ps1 w1] eqn:Hd. eauto.
  - destruct (await_all_Returned sched (List.length ps) ps w w' rest Hrun)
      as (more & -> & Hall).
    exists [], more. split; [reflexivity|]. split; [reflexivity|]. exact Hall.
  - discriminate.
  - destruct (deliver (EvFinish i) ps w) as [ps1 w1] eqn:Hd. eauto.
  - destruct (ps !! i) as [[| |e']|]; cbn [Nat.ltb Nat.leb] in Hrun;
      [discriminate|..];
      destruct (deliver (EvWriteError i err) ps w) as [ps1 w1] eqn:Hd; eauto.
  - destruct (deliver (EvOpen i) ps w) as [ps1 w1] eqn:Hd. eauto.
  - discriminate.
Qed.

Lemma extraction_Returned_after_end response w w' rest :
  extraction response w = (Returned tt, w', rest) ->
  exists pre more,
    schedule response = pre ++ EvEnd :: more ++ rest
    /\ existsb is_stream_end pre = false
    /\ Promise_all
         (take (registered pre)
            (fst (deliver_all downloadPath (pre ++ EvEnd :: more) [] w))) = Returned tt.
Proof.
  intros Hrun. unfold extraction in Hrun.
  destruct (await_stream_Returned (schedule response) [] w w' rest Hrun)
    as (pre & more & Hsched & Hopen & Hall).
  rewrite deliver_all_length in Hall. cbn [List.length Nat.add] in Hall.
  exists pre, more. auto.
Qed.

(** X9: when the extraction stage completes, no write it waited for has
    failed: for every write stream opened, the first of ['finish'] and
    ['error'] that the stream emitted after it was opened was ['finish']
    (the tar stream emitting no entry after its ['end']). *)
Theorem extraction_returns_only_if_no_write_failed response w w' rest :
  entries_before_end (schedule response) = true ->
  extraction response w = (Returned tt, w', rest) ->
  exists delivered,
    schedule response = delivered ++ rest
    /\ forall i, i < registered delivered -> settling i 0 delivered = Fulfilled.
Proof.
  intros Hord Hrun.
  destruct (extraction_Returned_after_end response w w' rest Hrun)
    as (pre & more & Hsched & Hopen & Hall).
  exists (pre ++ EvEnd :: more). split.
  { rewrite Hsched, <- app_assoc. reflexivity. }
  assert (Hmore : registered (pre ++ EvEnd :: more) = registered pre).
  { rewrite Hsched in Hord.
    pose proof (open_entries_before_end pre (more ++ rest) Hopen Hord) as Hent.
    rewrite entry_paths_app in Hent. apply app_eq_nil in Hent. destruct Hent as [Hent _].
    rewrite registered_app, registered_cons. unfold registered at 2. rewrite Hent.
    cbn. lia. }
  intros i Hi.
  pose proof (deliver_all_length (pre ++ EvEnd :: more) [] w) as Hlen.
  cbn [List.length Nat.add] in Hlen.
  assert (Hful : take (registered pre)
                   (fst (deliver_all downloadPath (pre ++ EvEnd :: more) [] w)) !! i
                 = Some Fulfilled).
  { apply Promise_all_Returned; [exact Hall|].
    rewrite length_take_le by lia. lia. }
  apply lookup_take_Some in Hful. destruct Hful as [Hful _].
  rewrite (entryPromises_follow_history _ w i Hi) in Hful. injection Hful as Hful.
  exact Hful.
Qed.

(** X10: the extraction stage does complete when the archive is unpacked
    without error: if the tar stream ends, emits no entry afterwards, and
    every write stream opened emits ['finish'] before any ['error'] of its
    own, then the stage completes, in whatever order ['end'] and the
    ['finish'] events are delivered. *)
Theorem extraction_completes response w pre post :
  schedule response = pre ++ EvEnd :: post ->
  existsb is_stream_end pre = false ->
  entry_paths post = [] ->
  (forall i, i < registered pre -> settling i 0 (schedule response) = Fulfilled) ->
  fst (fst (extraction response w)) = Returned tt.
Proof.
  intros Hsched Hopen Hent Hfin.
  assert (Hno : forall i e, settling i 0 pre <> Rejected e).
  { intros i e Hs. destruct (decide (i < registered pre)) as [Hlt|Hge].
    - specialize (Hfin i Hlt). rewrite Hsched, settling_app, Hs in Hfin. discriminate.
    - rewrite settling_unopened in Hs by (cbn; lia). discriminate. }
  destruct (extraction_after_end response w pre post Hsched Hopen Hno Hent)
    as (more & Hpost & _ & Hout & Hpend).
  set (delivered := pre ++ EvEnd :: more) in *.
  set (rest := snd (extraction response w)) in *.
  assert (Hwhole : schedule response = delivered ++ rest).
  { rewrite Hsched, Hpost. unfold delivered. rewrite <- app_assoc. reflexivity. }
  assert (Hreg : registered delivered = registered pre).
  { rewrite Hpost, entry_paths_app in Hent. apply app_eq_nil in Hent.
    destruct Hent as [Hent _]. unfold delivered.
    rewrite registered_app, registered_cons. unfold registered at 2. rewrite Hent.
    cbn. lia. }
  pose proof (deliver_all_length delivered [] w) as Hlen.
  cbn [List.length Nat.add] in Hlen.
  set (ps := fst (deliver_all downloadPath delivered [] w)) in *.
  assert (Hps : forall i, i < registered pre ->
                  take (registered pre) ps !! i = Some (settling i 0 delivered)).
  { intros i Hi. rewrite lookup_take_lt by exact Hi.
    apply entryPromises_follow_history. lia. }
  assert (Hprefix : forall i, i < registered pre ->
                      settling i 0 delivered = Unsettled
                      \/ settling i 0 delivered = Fulfilled).
  { intros i Hi. specialize (Hfin i Hi). rewrite Hwhole, settling_app in Hfin.
    destruct (settling i 0 delivered); auto; discriminate. }
  assert (Hlen' : List.length (take (registered pre) ps) = registered pre).
  { apply length_take_le. lia. }
  assert (Hnorej : first_rejection (take (registered pre) ps) = None).
  { apply first_rejection_None. intros i e Hi.
    assert (Hlt : i < registered pre).
    { apply lookup_lt_Some in Hi. lia. }
    rewrite (Hps i Hlt) in Hi. injection Hi as Hi.
    destruct (Hprefix i Hlt) as [H|H]; congruence. }
  rewrite Hout. unfold Promise_all. rewrite Hnorej.
  destruct (forallb is_fulfilled (take (registered pre) ps)) eqn:Hall; [reflexivity|].
  exfalso.
  assert (Hp : fst (fst (extraction response w)) = Pending).
  { rewrite Hout. unfold Promise_all. rewrite Hnorej, Hall. reflexivity. }
  specialize (Hpend Hp). fold rest in Hpend.
  rewrite Hpend, app_nil_r in Hwhole.
  assert (Htrue : forallb is_fulfilled (take (registered pre) ps) = true).
  { apply forallb_fulfilled. intros i Hi. rewrite Hlen' in Hi.
    rewrite (Hps i Hi). f_equal. rewrite <- Hwhole. apply Hfin. exact Hi. }
  congruence.
Qed.

(** *** The files the stage writes *)




(** ** More on the iterations of [main] *)

Lemma created_requests d :
  Forall (fun e => exists u a m, e = HttpsRequest u a m) d -> created d = [].
Proof.
  induction 1 as [|e d (u & a & m & ->) _ IH]; [reflexivity|exact IH].
Qed.

Lemma request_created url options w :
  created (trace (snd (request url options w))) = created (trace w).
Proof.
  destruct (request_on_shape (tape w) url options w) as (more & Htrace & Hmore).
  unfold request. rewrite Htrace, created_app.
  rewrite (created_requests (_ :: more)); [apply app_nil_r|].
  constructor; [eauto|].
  eapply Forall_impl; [exact Hmore|]. intros e (r & loc & _ & _ & ->). eauto.
Qed.

(** The download branch of an iteration (lines 115-134) sends the GET
    request after its log line, and no HEAD request. *)
Lemma download_shape editionId w :
  exists more,
    trace (snd ((do! perform (ConsoleLog (" > " +:+ editionId
                                 +:+ ": Is either missing or outdated, downloading")) in
                 let! response := request (link editionId) noOptions in
                 extract response)%js w)) =
      trace w ++ ConsoleLog (" > " +:+ editionId
                               +:+ ": Is either missing or outdated, downloading")
        :: HttpsRequest (link editionId) (request_auth noOptions) Absent :: more
    /\ forall u a, ~ In (HttpsRequest u a (Present "HEAD")) more.
Proof.
  unfold bind, perform.
  set (w2 := emit _ w).
  destruct (request_on_shape (tape w2) (link editionId) noOptions w2)
    as (more1 & Htrace & Hmore).
  assert (Hno1 : forall u a, ~ In (HttpsRequest u a (Present "HEAD")) more1).
  { intros u a Hin. rewrite List.Forall_forall in Hmore.
    destruct (Hmore _ Hin) as (r & loc & _ & _ & Heq). discriminate. }
  unfold request.
  destruct (request_on (tape w2) (link editionId) noOptions w2) as [[response|e|] w3];
    cbn [snd] in *.
  - destruct (extract_evolves downloadPath
                (fun e => forall u a, e <> HttpsRequest u a (Present "HEAD"))
                ltac:(discriminate) ltac:(split; discriminate) response w3)
      as [(d & Hd & Hok) _].
    { intros p _ _. discriminate. }
    exists (more1 ++ d). split.
    + rewrite Hd, Htrace. unfold w2. cbn. rewrite <- !app_assoc. reflexivity.
    + intros u a Hin. apply in_app_or in Hin. destruct Hin as [Hin|Hin].
      * apply (Hno1 u a Hin).
      * rewrite List.Forall_forall in Hok. apply (Hok _ Hin u a). reflexivity.
  - exists more1. split; [|exact Hno1].
    rewrite Htrace. unfold w2. cbn. rewrite <- !app_assoc. reflexivity.
  - exists more1. split; [|exact Hno1].
    rewrite Htrace. unfold w2. cbn. rewrite <- !app_assoc. reflexivity.
Qed.

(** X11: when the database of an edition is not on disk, its iteration
    sends no HEAD request at all: after the log line the first thing it does
    is the GET request for the archive. *)
Theorem main_iteration_skips_HEAD_when_missing editionId w :
  files w !! path_join [downloadPath; editionId +:+ ".mmdb"] = None ->
  exists more,
    trace (snd (main_iteration editionId w)) =
      trace w ++ ConsoleLog (" > " +:+ editionId
                               +:+ ": Is either missing or outdated, downloading")
        :: HttpsRequest (link editionId) (request_auth noOptions) Absent :: more
    /\ forall u a, ~ In (HttpsRequest u a (Present "HEAD")) more.
Proof.
  intros Hfile.
  destruct (download_shape editionId w) as (more & Htrace & Hno).
  exists more. split; [|exact Hno]. rewrite <- Htrace.
  unfold main_iteration, bind at 1.
  rewrite (isOutdated_missing Date_parse https_accepts accountId licenseKey _ _ w Hfile).
  reflexivity.
Qed.

(** X12: when the database is on disk and the HEAD request returns a
    response, the iteration sends the GET request for the archive exactly
    when the local modification time is strictly earlier than the parsed
    [last-modified] header; otherwise it ends with the "up to date" log
    line, having sent HEAD requests only. *)
Theorem main_iteration_downloads_iff_stale editionId w mtime response w1 :
  files w !! path_join [downloadPath; editionId +:+ ".mmdb"] = Some mtime ->
  request (link editionId) headOptions w = (Returned response, w1) ->
  let stale :=
    js_lt (Num mtime)
      (Date_parse_value Date_parse (headers response !! "last-modified")) in
  exists d,
    trace (snd (main_iteration editionId w)) = trace w ++ d
    /\ ((exists a, In (HttpsRequest (link editionId) a Absent) d) <-> stale = true)
    /\ (stale = false ->
        main_iteration editionId w =
          (Returned tt,
           emit (ConsoleLog (" > " +:+ editionId +:+ ": Is up to date, skipping download"))
             w1)).
Proof.
  intros Hfile Hreq stale.
  destruct (request_on_shape (tape w) (link editionId) headOptions w)
    as (heads & Htrace & Hheads).
  fold (request (link editionId) headOptions w) in Htrace.
  rewrite Hreq in Htrace. cbn [snd] in Htrace.
  assert (Hnoget : forall a,
             ~ In (HttpsRequest (link editionId) a Absent)
                 (HttpsRequest (link editionId) (request_auth headOptions) (Present "HEAD")
                    :: heads)).
  { intros a [Heq|Hin]; [discriminate|].
    rewrite List.Forall_forall in Hheads.
    destruct (Hheads _ Hin) as (r & loc & _ & _ & Heq). discriminate. }
  assert (Hiter : main_iteration editionId w =
                  if stale
                  then (do! perform (ConsoleLog (" > " +:+ editionId
                                  +:+ ": Is either missing or outdated, downloading")) in
                        let! response := request (link editionId) noOptions in
                        extract response)%js w1
                  else (Returned tt,
                        emit (ConsoleLog (" > " +:+ editionId
                                            +:+ ": Is up to date, skipping download")) w1)).
  { unfold main_iteration, bind at 1.
    rewrite (isOutdated_present Date_parse https_accepts accountId licenseKey _ _ w
               mtime Hfile), Hreq.
    fold stale. destruct stale; reflexivity. }
  rewrite Hiter. destruct stale.
  - destruct (download_shape editionId w1) as (more & Hdown & _).
    eexists. split.
    + rewrite Hdown, Htrace, <- app_assoc. reflexivity.
    + split; [|discriminate]. split; [reflexivity|]. intros _.
      exists (request_auth noOptions). apply in_or_app. right. right. left. reflexivity.
  - eexists. split.
    + cbn [snd trace emit]. rewrite Htrace, <- app_assoc. reflexivity.
    + split; [|reflexivity]. split; [|discriminate].
      intros (a & Hin). apply in_app_or in Hin. destruct Hin as [Hin|[Hin|[]]].
      * exfalso. apply (Hnoget a Hin).
      * discriminate.
Qed.

(** X13: an iteration that fails with a [RequestFailed] error has written
    nothing: no file was opened for writing and every file is as it was,
    since such an error comes from the HEAD or the GET request and the
    extraction stage only starts once the GET request has returned. *)
Theorem main_iteration_request_failure_writes_nothing editionId w url code message w' :
  main_iteration editionId w = (Threw (RequestFailed url code message), w') ->
  files w' = files w
  /\ created (trace w') = created (trace w).
Proof.
  unfold main_iteration, bind. intros Hrun.
  pose proof (isOutdated_files (path_join [downloadPath; editionId +:+ ".mmdb"])
                (link editionId) w) as Hf1.
  destruct (isOutdated_shape (path_join [downloadPath; editionId +:+ ".mmdb"])
              (link editionId) w) as (d1 & Ht1 & Hd1).
  assert (Hc1 : created d1 = []).
  { apply created_requests. eapply Forall_impl; [exact Hd1|].
    intros e (u & a & ->). eauto. }
  destruct (isOutdated _ _ w) as [[stale|e|] w1]; cbn [snd] in *; try discriminate.
  - destruct stale; cbn [negb] in Hrun.
    + unfold perform in Hrun.
      set (w2 := emit _ w1) in Hrun.
      pose proof (request_on_files https_accepts accountId licenseKey (tape w2)
                    (link editionId) noOptions w2) as Hf3.
      pose proof (request_created (link editionId) noOptions w2) as Hc3.
      unfold request in Hrun, Hc3.
      destruct (request_on (tape w2) (link editionId) noOptions w2)
        as [[response|e|] w3]; cbn [snd] in *; try discriminate.
      * exfalso. unfold extract in Hrun.
        destruct (extraction_Threw_cases response w3 (RequestFailed url code message))
          as (delivered & err & _ & Habs & _); [|discriminate].
        destruct (extraction response w3) as [[o w4] rest]. cbn [fst] in *.
        injection Hrun as -> _. reflexivity.
      * injection Hrun as _ <-. split.
        -- rewrite Hf3. unfold w2. cbn. exact Hf1.
        -- rewrite Hc3. unfold w2. cbn. rewrite created_app, Ht1, created_app, Hc1.
           cbn. rewrite !app_nil_r. reflexivity.
    + discriminate.
  - injection Hrun as _ <-. split; [exact Hf1|].
    rewrite Ht1, created_app, Hc1. apply app_nil_r.
Qed.

(** The first thing an iteration asks the network is the URL of its
    edition: with HEAD when the database is on disk, with GET otherwise. *)
Lemma main_iteration_requests editionId w :
  exists d a m,
    trace (snd (main_iteration editionId w)) = trace w ++ d
    /\ In (HttpsRequest (link editionId) a m) d.
Proof.
  destruct (files w !! path_join [downloadPath; editionId +:+ ".mmdb"])
    as [mtime|] eqn:Hfile.
  - unfold main_iteration, bind at 1.
    rewrite (isOutdated_present Date_parse https_accepts accountId licenseKey _ _ w
               mtime Hfile).
    destruct (request_on_first_effect https_accepts accountId licenseKey (tape w)
                (link editionId) headOptions w) as [more Hmore].
    fold (request (link editionId) headOptions w) in Hmore.
    destruct (request (link editionId) headOptions w) as [[response|e|] w1];
      cbn [snd] in *;
      try (eexists; exists (request_auth headOptions), (Present "HEAD");
           split; [exact Hmore|left; reflexivity]).
    destruct (js_lt _ _); cbn [negb].
    + destruct (download_shape editionId w1) as (more2 & Hd & _).
      eexists. exists (request_auth headOptions), (Present "HEAD"). split.
      * rewrite Hd, Hmore, <- app_assoc. reflexivity.
      * left. reflexivity.
    + eexists. exists (request_auth headOptions), (Present "HEAD"). split.
      * cbn [snd perform trace emit]. rewrite Hmore, <- app_assoc. reflexivity.
      * left. reflexivity.
  - destruct (download_shape editionId w) as (more & Htrace & _).
    eexists. exists (request_auth noOptions), Absent. split.
    + rewrite <- Htrace. unfold main_iteration, bind at 1.
      rewrite (isOutdated_missing Date_parse https_accepts accountId licenseKey _ _ w
                 Hfile).
      reflexivity.
    + right. left. reflexivity.
Qed.

(** Once the editions before it have been handled, an edition is asked
    for. *)
Lemma main_loop_requests_next ids1 editionId ids2 w :
  fst (main_loop ids1 w) = Returned tt ->
  exists d a m,
    trace (snd (main_loop (ids1 ++ editionId :: ids2) w)) = trace w ++ d
    /\ In (HttpsRequest (link editionId) a m) d.
Proof.
  intros Hdone.
  rewrite (main_loop_app Date_parse https_accepts accountId licenseKey downloadPath).
  destruct (main_loop_trace_grows Date_parse https_accepts accountId licenseKey
              downloadPath ids1 w) as [d1 H1].
  destruct (main_loop ids1 w) as [[[]|e|] w1]; cbn [fst snd] in *; try discriminate.
  cbn [main_loop]. unfold bind.
  destruct (main_iteration_requests editionId w1) as (d2 & a & m & H2 & Hin).
  destruct (main_iteration editionId w1) as [[[]|e|] w2]; cbn [snd] in *.
  - destruct (main_loop_trace_grows Date_parse https_accepts accountId licenseKey
                downloadPath ids2 w2) as [d3 H3].
    exists (d1 ++ d2 ++ d3), a, m. split.
    + rewrite H3, H2, H1, <- !app_assoc. reflexivity.
    + apply in_or_app. right. apply in_or_app. left. exact Hin.
  - exists (d1 ++ d2), a, m. split; [rewrite H2, H1, <- app_assoc; reflexivity|].
    apply in_or_app. right. exact Hin.
  - exists (d1 ++ d2), a, m. split; [rewrite H2, H1, <- app_assoc; reflexivity|].
    apply in_or_app. right. exact Hin.
Qed.

(** ** What a run does to the files *)

Section Preservation.

Variable dir : string.

Lemma preserves_refl w : preserves dir w w.
Proof. exists []. rewrite app_nil_r. auto. Qed.

Lemma preserves_trans w1 w2 w3 :
  preserves dir w1 w2 -> preserves dir w2 w3 -> preserves dir w1 w3.
Proof.
  intros (d1 & Ht1 & Hf1 & Hs1) (d2 & Ht2 & Hf2 & Hs2).
  exists (d1 ++ d2). split; [rewrite Ht2, Ht1, app_assoc; reflexivity|]. split.
  - intros p Hp Hin. rewrite created_app in Hin.
    rewrite Hf2, Hf1; auto; intros H; apply Hin, in_or_app; auto.
  - auto.
Qed.

Lemma preserves_same_files w w' d :
  trace w' = trace w ++ d -> files w' = files w -> preserves dir w w'.
Proof. intros Ht Hf. exists d. rewrite Hf. auto. Qed.

Lemma preserves_emit e w : preserves dir w (emit e w).
Proof. apply (preserves_same_files w (emit e w) [e]); reflexivity. Qed.

Lemma request_preserves url options w :
  preserves dir w (snd (request url options w)).
Proof.
  destruct (request_on_shape (tape w) url options w) as (more & Htrace & _).
  eapply preserves_same_files; [exact Htrace|].
  apply request_on_files.
Qed.

Lemma isOutdated_preserves dbPath url w :
  preserves dir w (snd (isOutdated dbPath url w)).
Proof.
  destruct (isOutdated_shape dbPath url w) as (d & Hd & _).
  eapply preserves_same_files; [exact Hd|]. apply isOutdated_files.
Qed.

Lemma extract_preserves response w :
  preserves dir w (snd (extract response w)).
Proof.
  unfold extract, extraction.
  destruct (await_stream_unpacking downloadPath (schedule response) [] w w []
              (unpacking_start downloadPath w))
    as (more & ps' & _ & Hc & _ & _ & Hfiles & _).
  destruct (await_stream_evolves downloadPath (fun _ => True) (fun _ => I)
              (fun _ => conj I I) (schedule response) [] w) as [(d & Hd & _) _].
  { intros p _ _. exact I. }
  exists d. split; [exact Hd|].
  rewrite Hd, created_app in Hc. apply app_inv_head in Hc.
  split.
  - intros p _ Hin. destruct (Hfiles p) as [Hsame|[Hout _]]; [exact Hsame|].
    exfalso. apply Hin. rewrite Hc. exact Hout.
  - intros p Hp. destruct (Hfiles p) as [Hsame|[_ Hnew]].
    + rewrite Hsame. exact Hp.
    + rewrite Hnew. eauto.
Qed.

Lemma main_iteration_preserves editionId w :
  preserves dir w (snd (main_iteration editionId w)).
Proof.
  unfold main_iteration, bind.
  pose proof (isOutdated_preserves (path_join [downloadPath; editionId +:+ ".mmdb"])
                (link editionId) w) as H1.
  destruct (isOutdated _ _ w) as [[stale|e|] w1]; cbn [snd] in *; auto.
  destruct stale; cbn [negb]; unfold perform.
  - set (w2 := emit _ w1).
    assert (H2 : preserves dir w w2).
    { eapply preserves_trans; [exact H1|apply preserves_emit]. }
    pose proof (request_preserves (link editionId) noOptions w2) as H3.
    destruct (request (link editionId) noOptions w2) as [[response|e|] w3];
      cbn [snd] in *; try (eapply preserves_trans; eassumption).
    eapply preserves_trans; [exact H2|]. eapply preserves_trans; [exact H3|].
    apply extract_preserves.
  - cbn [snd]. eapply preserves_trans; [exact H1|apply preserves_emit].
Qed.

Lemma main_loop_preserves ids :
  forall w, preserves dir w (snd (main_loop ids w)).
Proof.
  induction ids as [|id ids IH]; intros w; [apply preserves_refl|].
  cbn [main_loop].
  unfold bind. pose proof (main_iteration_preserves id w) as H1.
  destruct (main_iteration id w) as [[[]|e|] w1]; cbn [snd] in *; auto.
  eapply preserves_trans; [exact H1|apply IH].
Qed.

End Preservation.

(** ** How a run can exit *)












End MoreProperties.

(** ** More on the script as a whole *)

Lemma created_In p d : In p (created d) <-> In (CreateWriteStream p) d.
Proof.
  induction d as [|e d IH]; [reflexivity|].
  destruct e; cbn [created In]; rewrite ?IH; split; intros H;
    try (right; exact H); try (destruct H as [H|H]; [discriminate|exact H]).
  - destruct H as [->|H]; [left; reflexivity|right; exact H].
  - destruct H as [[= ->]|H]; [left; reflexivity|right; exact H].
Qed.

Lemma resolve_preserves dir what call w :
  preserves dir w (snd (resolve what call w)).
Proof.
  destruct call as [v|message]; [apply preserves_refl|].
  cbn [resolve snd]. eapply preserves_trans; apply preserves_emit.
Qed.

Lemma ensure_directory_preserves p w : preserves p w (ensure_directory p w).
Proof.
  unfold ensure_directory. destruct (negb (fs_existsSync p w)); [|apply preserves_refl].
  exists [MkdirSync p]. split; [reflexivity|]. split.
  - intros q Hq _. cbn. apply lookup_insert_ne. congruence.
  - intros q Hq. cbn. destruct (decide (p = q)) as [->|Hne].
    + rewrite lookup_insert_eq. eauto.
    + rewrite lookup_insert_ne by exact Hne. exact Hq.
Qed.

Lemma settle_main_preserves dir r : preserves dir (snd r) (settle_main r).
Proof.
  destruct r as [[[]|e|] w]; cbn [settle_main snd].
  - apply preserves_emit.
  - eapply preserves_trans; apply preserves_emit.
  - apply preserves_refl.
Qed.

Lemma main_preserves dir Date_parse https_accepts accountId licenseKey selected
    downloadPath w :
  preserves dir w
    (snd (main Date_parse https_accepts accountId licenseKey selected downloadPath w)).
Proof.
  rewrite main_unfold. eapply preserves_trans; [apply preserves_emit|].
  apply main_loop_preserves.
Qed.

(** X14: whatever the credentials, the selection, the files on disk and the
    answers of the network, the script removes no file, and the only paths it
    changes are the download directory (which it may create) and the files
    it opens for writing while unpacking. *)
Theorem script_changes_only_what_it_writes Date_parse https_accepts dirname getLicense
    getAccountId selected w :
  let run := script Date_parse https_accepts dirname getLicense getAccountId selected w in
  exists d,
    trace run = trace w ++ d
    /\ (forall p, p <> path_join [dirname; ".."; "dbs"] ->
                  ~ In (CreateWriteStream p) d ->
                  files run !! p = files w !! p)
    /\ (forall p, is_Some (files w !! p) -> is_Some (files run !! p)).
Proof.
  cbv zeta.
  assert (H : preserves (path_join [dirname; ".."; "dbs"]) w
                (script Date_parse https_accepts dirname getLicense getAccountId
                   selected w)).
  { unfold script.
    pose proof (resolve_preserves (path_join [dirname; ".."; "dbs"])
                  "geolite2: Error retrieving Maxmind License Key" getLicense w) as H1.
    destruct (resolve _ getLicense w) as [licenseKey wl]. cbn [snd] in H1.
    pose proof (resolve_preserves (path_join [dirname; ".."; "dbs"])
                  "geolite2: Error retrieving Maxmind Account ID" getAccountId wl) as H2.
    destruct (resolve _ getAccountId wl) as [accountId wa]. cbn [snd] in H2.
    assert (H3 : preserves (path_join [dirname; ".."; "dbs"]) w wa).
    { eapply preserves_trans; eassumption. }
    destruct (negb (truthy licenseKey)).
    - eapply preserves_trans; [exact H3|].
      eapply preserves_trans; apply preserves_emit.
    - eapply preserves_trans; [exact H3|].
      eapply preserves_trans; [apply ensure_directory_preserves|].
      eapply preserves_trans; [|apply settle_main_preserves].
      apply main_preserves. }
  destruct H as (d & Hd & Hf & Hs). exists d. split; [exact Hd|]. split; [|exact Hs].
  intros p Hp Hin. apply Hf; [exact Hp|]. rewrite created_In. exact Hin.
Qed.

(** X15: without a license key (the lookup threw, or returned nothing or
    the empty string) the script only logs: the messages of the failed
    lookups, the help text, and exit status 1.  It sends no request, creates
    no directory and touches no file, whatever the account id lookup did. *)
Theorem script_stops_without_license Date_parse https_accepts dirname getLicense
    getAccountId selected w :
  (forall key, getLicense = Returns (Some key) -> key = "") ->
  let run := script Date_parse https_accepts dirname getLicense getAccountId selected w in
  files run = files w
  /\ tape run = tape w
  /\ exists logs,
       trace run = trace w ++ logs ++ [ConsoleError licenseKeyHelp; ProcessExit 1]
       /\ Forall (fun e => exists msg, e = ConsoleError msg) logs.
Proof.
  intros Hkey. cbv zeta. unfold script.
  assert (Hlic : forall wl licenseKey,
             resolve "geolite2: Error retrieving Maxmind License Key" getLicense w
               = (licenseKey, wl) ->
             truthy licenseKey = false
             /\ files wl = files w /\ tape wl = tape w
             /\ exists l1, trace wl = trace w ++ l1
                           /\ Forall (fun e => exists msg, e = ConsoleError msg) l1).
  { intros wl licenseKey Hres. destruct getLicense as [[key|]|message]; cbn in Hres;
      injection Hres as <- <-.
    - rewrite (Hkey key eq_refl). repeat split. exists []. rewrite app_nil_r. auto.
    - repeat split. exists []. rewrite app_nil_r. auto.
    - repeat split. eexists [_; _]. cbn. rewrite <- app_assoc. split; [reflexivity|].
      repeat constructor; eauto. }
  destruct (resolve _ getLicense w) as [licenseKey wl].
  destruct (Hlic wl licenseKey eq_refl) as (Hfalse & Hf & Htp & l1 & Ht & Hl1).
  assert (Hacc : forall wa accountId,
             resolve "geolite2: Error retrieving Maxmind Account ID" getAccountId wl
               = (accountId, wa) ->
             files wa = files wl /\ tape wa = tape wl
             /\ exists l2, trace wa = trace wl ++ l2
                           /\ Forall (fun e => exists msg, e = ConsoleError msg) l2).
  { intros wa accountId Hres. destruct getAccountId as [v|message]; cbn in Hres;
      injection Hres as <- <-.
    - repeat split. exists []. rewrite app_nil_r. auto.
    - repeat split. eexists [_; _]. cbn. rewrite <- app_assoc. split; [reflexivity|].
      repeat constructor; eauto. }
  destruct (resolve _ getAccountId wl) as [accountId wa].
  destruct (Hacc wa accountId eq_refl) as (Hf2 & Htp2 & l2 & Ht2 & Hl2).
  rewrite Hfalse. cbn [negb].
  split; [cbn; congruence|]. split; [cbn; congruence|].
  exists (l1 ++ l2). split.
  - cbn [trace emit]. rewrite Ht2, Ht. rewrite <- !app_assoc. reflexivity.
  - apply Forall_app. auto.
Qed.



(** ** The editions of a run and what is asked and written for them *)

(** C6 (amended): the editions [main] handles are the members of the fixed
    enumeration City, Country, ASN that the selection contains, in the
    order of the enumeration, each prefixed with [GeoLite2-].  [main] asks
    the network for each of them in turn, once the editions before it have
    been handled.  Every request of a run goes to the URL of one of these
    editions or to the location a redirect response gave, so that the URL of
    an edition outside the selection is requested only when a redirect leads
    there; and every file a run writes is a database entry of an archive the
    network delivered, named after the entry and not after the edition. *)
Theorem editionIds_are_the_selected_editions selected :
  editionIds selected =
    (fun e => "GeoLite2-" +:+ e) <$> filter (fun e => e ∈ selected) ["City"; "Country"; "ASN"]
  /\ (forall id, In id (editionIds selected) <->
                 exists e, In e ["City"; "Country"; "ASN"] /\ In e selected
                           /\ id = "GeoLite2-" +:+ e)
  /\ sublist (editionIds selected) ["GeoLite2-City"; "GeoLite2-Country"; "GeoLite2-ASN"]
  /\ forall Date_parse https_accepts accountId licenseKey downloadPath w,
       let banner := ConsoleLog "Downloading maxmind databases..." in
       exists d,
         trace (snd (main Date_parse https_accepts accountId licenseKey selected
                       downloadPath w)) = trace w ++ banner :: d
         /\ (forall ids1 id ids2,
               editionIds selected = ids1 ++ id :: ids2 ->
               fst (main_loop Date_parse https_accepts accountId licenseKey downloadPath
                      ids1 (emit banner w)) = Returned tt ->
               exists a m, In (HttpsRequest (link accountId licenseKey id) a m) d)
         /\ (forall url a m,
               In (HttpsRequest url a m) d ->
               (exists e, In e ["City"; "Country"; "ASN"] /\ In e selected
                          /\ url = link accountId licenseKey ("GeoLite2-" +:+ e))
               \/ (exists r, In (NetResponse r) (tape w) /\ redirect_location r = Some url))
         /\ (forall e a m,
               ~ In e selected ->
               In (HttpsRequest (link accountId licenseKey ("GeoLite2-" +:+ e)) a m) d ->
               exists r, In (NetResponse r) (tape w)
                         /\ redirect_location r =
                              Some (link accountId licenseKey ("GeoLite2-" +:+ e)))
         /\ (forall q,
               In (CreateWriteStream q) d ->
               exists r p, In (NetResponse r) (tape w)
                           /\ In p (entry_paths (schedule r))
                           /\ endsWith p ".mmdb" = true
                           /\ q = path_join [downloadPath; path_basename p]).
Proof.
  assert (Hmem : forall id, In id (editionIds selected) <->
                   exists e, In e ["City"; "Country"; "ASN"] /\ In e selected
                             /\ id = "GeoLite2-" +:+ e).
  { intros id. unfold editionIds. rewrite in_map_iff. split.
    - intros (e & <- & He). apply filter_In in He. destruct He as [He Hsel].
      apply includes_In in Hsel. eauto.
    - intros (e & He & Hsel & ->). exists e. split; [reflexivity|].
      apply filter_In. split; [exact He|]. apply includes_In. exact Hsel. }
  split; [|split; [exact Hmem|split]].
  - unfold editionIds. rewrite filter_includes. reflexivity.
  - unfold editionIds. cbn [List.filter].
    destruct (includes selected "City"), (includes selected "Country"),
      (includes selected "ASN"); cbn; repeat constructor.
  - intros Date_parse https_accepts accountId licenseKey downloadPath w banner.
    destruct (main_from_run Date_parse https_accepts accountId licenseKey selected
                downloadPath w) as (d & Hd & Hok).
    exists d. split; [exact Hd|]. rewrite List.Forall_forall in Hok.
    assert (Hreq : forall url a m,
               In (HttpsRequest url a m) d ->
               (exists e, In e ["City"; "Country"; "ASN"] /\ In e selected
                          /\ url = link accountId licenseKey ("GeoLite2-" +:+ e))
               \/ (exists r, In (NetResponse r) (tape w)
                             /\ redirect_location r = Some url)).
    { intros url a m Hin.
      destruct (Hok _ Hin) as [(id & Hid & ->)|H]; [|right; exact H].
      apply Hmem in Hid. destruct Hid as (e & He & Hsel & ->). left. eauto. }
    split; [|split; [exact Hreq|split]].
    + intros ids1 id ids2 Hids Hdone.
      destruct (main_loop_requests_next Date_parse https_accepts accountId licenseKey
                  downloadPath ids1 id ids2 (emit banner w) Hdone)
        as (d' & a & m & Hd' & Hin).
      rewrite main_unfold, Hids in Hd. fold banner in Hd. rewrite Hd' in Hd.
      cbn [trace emit] in Hd. rewrite <- app_assoc in Hd.
      apply app_inv_head in Hd. cbn [app] in Hd. injection Hd as Hd. subst d'.
      exists a, m. exact Hin.
    + intros e a m Hnot Hin.
      destruct (Hreq _ _ _ Hin) as [(e' & _ & Hsel & Heq)|H]; [|exact H].
      apply link_inj, String.app_inj in Heq. subst e'. contradiction.
    + intros q Hin. exact (Hok _ Hin).
Qed.

(** ** More on the editions and their URLs *)

Lemma editionIds_ext selected selected' :
  (forall e, In e selected <-> In e selected') ->
  editionIds selected = editionIds selected'.
Proof.
  intros Hsame. unfold editionIds. f_equal. apply List.filter_ext.
  intros e. destruct (includes selected e) eqn:H1, (includes selected' e) eqn:H2;
    try reflexivity.
  - apply includes_In, Hsame, includes_In in H1. congruence.
  - apply includes_In, Hsame, includes_In in H2. congruence.
Qed.

(** X17: the editions of a run depend only on which names the selection
    contains, not on their order or on repetitions, and no edition is handled
    twice. *)
Theorem editionIds_by_membership selected selected' :
  (forall e, In e selected <-> In e selected') ->
  editionIds selected = editionIds selected'
  /\ List.NoDup (editionIds selected).
Proof.
  intros Hsame. split; [apply editionIds_ext; exact Hsame|].
  unfold editionIds. cbn [List.filter].
  destruct (includes selected "City"), (includes selected "Country"),
    (includes selected "ASN"); cbn [List.map];
    repeat (apply List.NoDup_cons; [cbn; intuition discriminate|]);
    apply List.NoDup_nil.
Qed.

(** X18: when the selection contains none of City, Country and ASN, [main]
    only prints its banner and completes: no request is sent and nothing is
    written. *)
Theorem main_without_selection Date_parse https_accepts accountId licenseKey selected
    downloadPath w :
  (forall e, In e ["City"; "Country"; "ASN"] -> ~ In e selected) ->
  editionIds selected = []
  /\ main Date_parse https_accepts accountId licenseKey selected downloadPath w =
       (Returned tt, emit (ConsoleLog "Downloading maxmind databases...") w).
Proof.
  intros Hnone.
  assert (Hempty : editionIds selected = []).
  { unfold editionIds. cbn [List.filter].
    assert (Hinc : forall e, In e ["City"; "Country"; "ASN"] -> includes selected e = false).
    { intros e He. destruct (includes selected e) eqn:Hinc; [|reflexivity].
      apply includes_In in Hinc. destruct (Hnone e He Hinc). }
    rewrite !Hinc by (cbn; auto). reflexivity. }
  split; [exact Hempty|]. rewrite main_unfold, Hempty. reflexivity.
Qed.

(** X19: with the same credentials, two different editions never share a
    URL, in either URL shape. *)
Theorem link_distinguishes_editions accountId licenseKey x y :
  x <> y -> link accountId licenseKey x <> link accountId licenseKey y.
Proof. intros Hne Heq. apply Hne. eapply link_inj. exact Heq. Qed.

(** ** More on paths *)

Lemma append_nil_r a : a +:+ "" = a.
Proof. induction a as [|c a IH]; [reflexivity|]. rewrite append_cons, IH. reflexivity. Qed.

Lemma append_assoc a b c : (a +:+ b) +:+ c = a +:+ (b +:+ c).
Proof.
  induction a as [|x a IH]; [reflexivity|]. rewrite !append_cons, IH. reflexivity.
Qed.

Lemma substring_full s : String.substring 0 (String.length s) s = s.
Proof. induction s as [|c s IH]; [reflexivity|]. cbn. rewrite IH. reflexivity. Qed.

Lemma substring_split s :
  forall k, k <= String.length s ->
            s = String.substring 0 k s
                +:+ String.substring k (String.length s - k) s.
Proof.
  induction s as [|c s IH]; intros k Hk.
  - destruct k; [reflexivity|cbn in Hk; lia].
  - destruct k as [|k].
    + cbn [String.substring String.length Nat.sub]. rewrite substring_full. reflexivity.
    + cbn [String.substring String.length Nat.sub]. rewrite append_cons.
      f_equal. apply IH. cbn in Hk. lia.
Qed.

Lemma substring_suffix pre suf :
  String.substring (String.length pre) (String.length suf) (pre +:+ suf) = suf.
Proof.
  induction pre as [|c pre IH]; [apply substring_full|].
  rewrite append_cons. cbn [String.length String.substring]. exact IH.
Qed.

Lemma endsWith_spec s suffix :
  endsWith s suffix = true <-> exists pre, s = pre +:+ suffix.
Proof.
  unfold endsWith. split.
  - intros H. apply andb_true_iff in H. destruct H as [Hle Heq].
    apply Nat.leb_le in Hle. apply String.eqb_eq in Heq.
    exists (String.substring 0 (String.length s - String.length suffix) s).
    rewrite (substring_split s (String.length s - String.length suffix)) at 1 by lia.
    f_equal. rewrite <- Heq at 3. f_equal. lia.
  - intros [pre ->]. rewrite length_append. apply andb_true_iff. split.
    + apply Nat.leb_le. lia.
    + replace (String.length pre + String.length suffix - String.length suffix)
        with (String.length pre) by lia.
      rewrite substring_suffix. apply String.eqb_refl.
Qed.

(** X20: [endsWith] holds exactly of the strings that are something followed
    by the suffix, so that an entry counts as a database exactly when its
    path is some stem followed by [.mmdb]. *)
Theorem endsWith_iff s suffix :
  (endsWith s suffix = true <-> exists pre, s = pre +:+ suffix)
  /\ (is_mmdb s = true <-> exists stem, s = stem +:+ ".mmdb").
Proof. split; apply endsWith_spec. Qed.

Lemma slash_append x : "/" +:+ x = String "/"%char x.
Proof. reflexivity. Qed.

Lemma segments_nonempty p : segments p <> [].
Proof.
  destruct p as [|c p]; [discriminate|]. cbn [segments].
  destruct (Ascii.eqb c "/"); [discriminate|].
  destruct (segments p); discriminate.
Qed.

Lemma segments_cons_slash rest : segments (String "/"%char rest) = "" :: segments rest.
Proof. reflexivity. Qed.

Lemma segments_cons_other c rest :
  Ascii.eqb c "/"%char = false ->
  exists seg segs, segments rest = seg :: segs
                   /\ segments (String c rest) = String c seg :: segs.
Proof.
  intros Hc. cbn [segments]. rewrite Hc.
  destruct (segments rest) as [|seg segs] eqn:Hs; [destruct (segments_nonempty rest Hs)|].
  eauto.
Qed.

Lemma segments_app_slash a :
  forall b, segments (a +:+ String "/"%char b) = segments a ++ segments b.
Proof.
  induction a as [|c a IH]; intros b; [reflexivity|].
  rewrite append_cons. destruct (Ascii.eqb c "/") eqn:Hc.
  - apply Ascii.eqb_eq in Hc. subst c. rewrite !segments_cons_slash, IH. reflexivity.
  - destruct (segments_cons_other c a Hc) as (seg & segs & Ha & Hca).
    destruct (segments_cons_other c (a +:+ String "/"%char b) Hc)
      as (seg' & segs' & Hab & Hcab).
    rewrite Hcab, Hca. rewrite IH, Ha in Hab. cbn [app] in Hab.
    injection Hab as <- <-. reflexivity.
Qed.

Lemma segments_slash_free s : has_slash s = false -> segments s = [s].
Proof.
  induction s as [|c s IH]; [reflexivity|].
  cbn [has_slash]. intros H. apply orb_false_iff in H. destruct H as [Hc Hs].
  cbn [segments]. rewrite Hc, (IH Hs). reflexivity.
Qed.

Lemma has_slash_append a b : has_slash (a +:+ b) = has_slash a || has_slash b.
Proof.
  induction a as [|c a IH]; [reflexivity|].
  rewrite append_cons. cbn [has_slash]. rewrite IH, orb_assoc. reflexivity.
Qed.

Lemma split_last_slash s :
  has_slash s = false
  \/ exists a b, s = a +:+ String "/"%char b /\ has_slash b = false.
Proof.
  induction s as [|c s IH]; [left; reflexivity|].
  destruct IH as [Hfree|(a & b & -> & Hb)].
  - destruct (Ascii.eqb c "/") eqn:Hc.
    + apply Ascii.eqb_eq in Hc. subst c. right. exists "", s. auto.
    + left. cbn [has_slash]. rewrite Hc, Hfree. reflexivity.
  - right. exists (String c a), b. rewrite append_cons. auto.
Qed.

Lemma path_basename_after_slash a b :
  has_slash b = false -> b <> "" -> path_basename (a +:+ String "/"%char b) = b.
Proof.
  intros Hb Hne. unfold path_basename.
  rewrite segments_app_slash, (segments_slash_free b Hb), List.filter_app.
  cbn [List.filter]. unfold nonempty at 2.
  destruct (String.eqb_spec b ""); [contradiction|]. cbn [negb].
  apply last_last.
Qed.

Lemma path_basename_slash_free b :
  has_slash b = false -> b <> "" -> path_basename b = b.
Proof.
  intros Hb Hne. unfold path_basename. rewrite (segments_slash_free b Hb).
  cbn [List.filter]. unfold nonempty.
  destruct (String.eqb_spec b ""); [contradiction|]. reflexivity.
Qed.

Lemma append_nonempty a b : b <> "" -> a +:+ b <> "".
Proof.
  intros Hb Habs. apply (f_equal String.length) in Habs. rewrite length_append in Habs.
  destruct b; [contradiction|]. cbn in Habs. lia.
Qed.

(** The base name of a database entry: the stem after the last slash,
    followed by [.mmdb]. *)
Lemma path_basename_mmdb p :
  is_mmdb p = true ->
  exists stem, has_slash stem = false /\ path_basename p = stem +:+ ".mmdb".
Proof.
  intros Hp. apply endsWith_spec in Hp. destruct Hp as [pre ->].
  destruct (split_last_slash pre) as [Hfree|(a & b & -> & Hb)].
  - exists pre. split; [exact Hfree|].
    apply path_basename_slash_free.
    + rewrite has_slash_append, Hfree. reflexivity.
    + apply append_nonempty. discriminate.
  - exists b. split; [exact Hb|].
    rewrite append_assoc, append_cons.
    apply path_basename_after_slash.
    + rewrite has_slash_append, Hb. reflexivity.
    + apply append_nonempty. discriminate.
Qed.

Lemma join_with_snoc l :
  forall b, l <> [] -> join_with "/" (l ++ [b]) = join_with "/" l +:+ "/" +:+ b.
Proof.
  induction l as [|x l IH]; intros b Hne; [contradiction|].
  destruct l as [|y l]; [reflexivity|].
  change (join_with "/" ((x :: y :: l) ++ [b]))
    with (x +:+ "/" +:+ join_with "/" ((y :: l) ++ [b])).
  rewrite IH by discriminate.
  change (join_with "/" (x :: y :: l)) with (x +:+ "/" +:+ join_with "/" (y :: l)).
  rewrite !append_assoc. reflexivity.
Qed.

Lemma proper_inv seg :
  proper seg = true ->
  seg <> "" /\ has_slash seg = false
  /\ String.eqb seg "." = false /\ String.eqb seg ".." = false.
Proof.
  unfold proper, nonempty. intros H.
  repeat (apply andb_true_iff in H; destruct H as [H ?]).
  repeat match goal with
         | H : negb _ = true |- _ => apply negb_true_iff in H
         end.
  repeat split; auto. intros ->. discriminate.
Qed.

Lemma segments_join l :
  l <> [] -> forallb proper l = true -> segments (join_with "/" l) = l.
Proof.
  induction l as [|x l IH]; intros Hne Hall; [contradiction|].
  cbn [forallb] in Hall. apply andb_true_iff in Hall. destruct Hall as [Hx Hl].
  destruct (proper_inv x Hx) as (_ & Hfree & _).
  destruct l as [|y l]; [apply segments_slash_free; exact Hfree|].
  change (join_with "/" (x :: y :: l)) with (x +:+ "/" +:+ join_with "/" (y :: l)).
  rewrite slash_append, segments_app_slash, (segments_slash_free x Hfree).
  rewrite IH by (discriminate || exact Hl). reflexivity.
Qed.

Lemma normalize_segments_proper allowAboveRoot l :
  forall stack,
    forallb proper l = true ->
    normalize_segments allowAboveRoot stack l = rev stack ++ l.
Proof.
  induction l as [|x l IH]; intros stack Hall.
  - cbn. rewrite app_nil_r. reflexivity.
  - cbn [forallb] in Hall. apply andb_true_iff in Hall. destruct Hall as [Hx Hl].
    destruct (proper_inv x Hx) as (Hne & _ & Hdot & Hdots).
    cbn [normalize_segments].
    destruct (String.eqb_spec x ""); [contradiction|].
    rewrite Hdot, Hdots. cbn [orb].
    rewrite IH by exact Hl. cbn [rev]. rewrite <- app_assoc. reflexivity.
Qed.

Lemma join_with_nonempty l :
  l <> [] -> forallb proper l = true -> join_with "/" l <> "".
Proof.
  intros Hne Hall Habs.
  pose proof (segments_join l Hne Hall) as Hseg. rewrite Habs in Hseg.
  cbn in Hseg. subst l. cbn in Hall. discriminate.
Qed.

Lemma path_normalize_absolute l :
  l <> [] -> forallb proper l = true ->
  path_normalize (String "/"%char (join_with "/" l)) = String "/"%char (join_with "/" l).
Proof.
  intros Hne Hall. unfold path_normalize.
  change (String.eqb (String "/"%char (join_with "/" l)) "") with false.
  cbv iota.
  change (startsWithSlash (String "/"%char (join_with "/" l))) with true.
  cbv zeta. cbn [negb].
  rewrite segments_cons_slash.
  change (normalize_segments false [] ("" :: segments (join_with "/" l)))
    with (normalize_segments false [] (segments (join_with "/" l))).
  rewrite (segments_join l Hne Hall), (normalize_segments_proper false l [] Hall).
  cbn [rev app].
  destruct (String.eqb_spec (join_with "/" l) "") as [Habs|_];
    [destruct (join_with_nonempty l Hne Hall Habs)|].
  destruct (endsWith (String "/"%char (join_with "/" l)) "/") eqn:Hends;
    [|reflexivity].
  exfalso. apply endsWith_spec in Hends. destruct Hends as [pre Hpre].
  apply (f_equal segments) in Hpre.
  rewrite segments_cons_slash, (segments_join l Hne Hall) in Hpre.
  change (pre +:+ "/") with (pre +:+ String "/"%char "") in Hpre.
  rewrite segments_app_slash in Hpre. cbn [segments] in Hpre.
  destruct (exists_last Hne) as (l' & z & ->).
  change ("" :: l' ++ [z]) with (("" :: l') ++ [z]) in Hpre.
  apply app_inj_tail in Hpre. destruct Hpre as [_ ->].
  rewrite forallb_app in Hall. apply andb_true_iff in Hall. destruct Hall as [_ Hz].
  cbn in Hz. discriminate.
Qed.

Lemma mmdb_name_proper stem :
  has_slash stem = false -> proper (stem +:+ ".mmdb") = true.
Proof.
  intros Hfree. unfold proper, nonempty.
  rewrite has_slash_append, Hfree.
  assert (Hlen : 5 <= String.length (stem +:+ ".mmdb")).
  { rewrite length_append. cbn. lia. }
  destruct (String.eqb_spec (stem +:+ ".mmdb") "") as [H|_];
    [rewrite H in Hlen; cbn in Hlen; lia|].
  destruct (String.eqb_spec (stem +:+ ".mmdb") ".") as [H|_];
    [rewrite H in Hlen; cbn in Hlen; lia|].
  destruct (String.eqb_spec (stem +:+ ".mmdb") "..") as [H|_];
    [rewrite H in Hlen; cbn in Hlen; lia|].
  reflexivity.
Qed.

(** X21: a database entry is written directly into the download directory,
    under its base name, wherever its path in the archive points: for an
    absolute, normalized download directory the destination of an entry is
    the directory, a slash, and the slash-free stem after the entry's last
    slash followed by [.mmdb]; an entry such as [../../x.mmdb] cannot leave
    the directory. *)
Theorem destination_inside_downloadPath segs p :
  segs <> [] ->
  forallb proper segs = true ->
  is_mmdb p = true ->
  let downloadPath := "/" +:+ join_with "/" segs in
  exists stem,
    has_slash stem = false
    /\ path_basename p = stem +:+ ".mmdb"
    /\ destination downloadPath p = downloadPath +:+ "/" +:+ stem +:+ ".mmdb".
Proof.
  intros Hne Hall Hp downloadPath.
  destruct (path_basename_mmdb p Hp) as (stem & Hfree & Hbase).
  exists stem. split; [exact Hfree|]. split; [exact Hbase|].
  pose proof (mmdb_name_proper stem Hfree) as Hproper.
  destruct (proper_inv _ Hproper) as (Hnonempty & _).
  unfold destination, path_join. rewrite Hbase. cbn [List.filter].
  unfold downloadPath. rewrite slash_append.
  change (nonempty (String "/"%char (join_with "/" segs))) with true. cbv iota.
  unfold nonempty. destruct (String.eqb_spec (stem +:+ ".mmdb") ""); [contradiction|].
  cbn [negb].
  change (join_with "/" [String "/"%char (join_with "/" segs); stem +:+ ".mmdb"])
    with (String "/"%char (join_with "/" segs) +:+ "/" +:+ stem +:+ ".mmdb").
  rewrite append_cons.
  rewrite <- (join_with_snoc segs (stem +:+ ".mmdb") Hne).
  apply path_normalize_absolute.
  - destruct segs; [contradiction|discriminate].
  - rewrite forallb_app, Hall. cbn. rewrite Hproper. reflexivity.
Qed.

(** * The further properties at sample runs *)

Lemma request_throws_transport_error_at_reset :
  fst (request sample_accepts (Some "12345") "KEY" "https://a.example/" noOptions reset_after_redirect) =
    Threw (Emitted "ECONNRESET")
  /\ trace (snd (request sample_accepts (Some "12345") "KEY" "https://a.example/" noOptions
                   reset_after_redirect)) =
       [HttpsRequest "https://a.example/" (Some "12345:KEY") Absent;
        HttpsRequest "https://b.example/" None Absent]
  /\ tape (snd (request sample_accepts (Some "12345") "KEY" "https://a.example/" noOptions
                  reset_after_redirect)) = [].
Proof.
  apply (request_throws_transport_error sample_accepts (Some "12345") "KEY"
           [found "https://b.example/"] ["https://b.example/"]
           "https://a.example/" noOptions reset_after_redirect "ECONNRESET" []).
  - reflexivity.
  - repeat constructor.
  - repeat constructor.
  - reflexivity.
Defined.

Lemma request_fails_on_redirect_without_location_at_302 :
  request sample_accepts None "KEY" "https://a.example/" noOptions answers_302_nowhere =
    (Threw (RequestFailed "https://a.example/" 302 "Found"),
     set_tape [] (emit (HttpsRequest "https://a.example/" None Absent)
                    answers_302_nowhere)).
Proof.
  apply (request_fails_on_redirect_without_location sample_accepts None "KEY" "https://a.example/"
           noOptions answers_302_nowhere found_nowhere []).
  - reflexivity.
  - cbn. lia.
  - reflexivity.
Defined.

Lemma extraction_rejects_on_stream_error_at_corrupt_archive :
  fst (fst (extraction "/pkg/dbs" corrupt_archive (sample_world [] []))) =
    Threw (Emitted "TAR_BAD_ARCHIVE")
  /\ snd (extraction "/pkg/dbs" corrupt_archive (sample_world [] [])) = [EvEnd].
Proof.
  apply (extraction_rejects_on_stream_error "/pkg/dbs" corrupt_archive (sample_world [] [])
           [EvEntry "GeoLite2-City_20240101/GeoLite2-City.mmdb"; EvFinish 0]
           "TAR_BAD_ARCHIVE" [EvEnd]).
  - reflexivity.
  - reflexivity.
  - intros i e. destruct i as [|i]; vm_compute; discriminate.
Defined.

Lemma extraction_pending_without_end_at_stalled_archive :
  extraction "/pkg/dbs" stalled_archive (sample_world [] []) =
    (Pending,
     snd (deliver_all "/pkg/dbs" (schedule stalled_archive) [] (sample_world [] [])),
     []).
Proof.
  apply (extraction_pending_without_end "/pkg/dbs" stalled_archive (sample_world [] [])).
  - reflexivity.
  - intros i e. destruct i as [|i]; vm_compute; discriminate.
Defined.

Lemma extraction_without_databases_at_text_archive :
  extraction "/pkg/dbs" text_archive (sample_world [] []) =
    (Returned tt, sample_world [] [], []).
Proof.
  apply (extraction_without_databases "/pkg/dbs" text_archive (sample_world [] [])
           [EvEntry "GeoLite2-City_20240101/COPYRIGHT.txt";
            EvEntry "GeoLite2-City_20240101/LICENSE.txt"] []).
  - reflexivity.
  - reflexivity.
  - reflexivity.
Defined.

Lemma extraction_failure_was_emitted_at_late_disk_full :
  exists delivered err,
    schedule late_disk_full_archive =
      delivered ++ snd (extraction "/pkg/dbs" late_disk_full_archive (sample_world [] []))
    /\ Emitted "ENOSPC" = Emitted err
    /\ (In (EvError err) delivered \/ exists i, In (EvWriteError i err) delivered).
Proof.
  apply (extraction_failure_was_emitted "/pkg/dbs" late_disk_full_archive
           (sample_world [] []) (Emitted "ENOSPC")).
  reflexivity.
Defined.

Lemma extraction_returns_only_if_no_write_failed_at_archive :
  exists delivered,
    schedule archive = delivered ++ []
    /\ forall i, i < registered delivered -> settling i 0 delivered = Fulfilled.
Proof.
  apply (extraction_returns_only_if_no_write_failed "/pkg/dbs" archive (sample_world [] [])
           (snd (fst (extraction "/pkg/dbs" archive (sample_world [] [])))) []).
  - reflexivity.
  - reflexivity.
Defined.

Lemma extraction_completes_at_archive :
  fst (fst (extraction "/pkg/dbs" archive (sample_world [] []))) = Returned tt.
Proof.
  apply (extraction_completes "/pkg/dbs" archive (sample_world [] [])
           [EvEntry "GeoLite2-City_20240101/COPYRIGHT.txt";
            EvEntry "GeoLite2-City_20240101/GeoLite2-City.mmdb";
            EvEntry "GeoLite2-City_20240101/GeoLite2-City-Blocks.mmdb";
            EvFinish 1]
           [EvFinish 0]).
  - reflexivity.
  - reflexivity.
  - reflexivity.
  - intros i Hi. vm_compute in Hi.
    destruct i as [|[|i]]; [reflexivity|reflexivity|lia].
Defined.

Lemma main_iteration_skips_HEAD_when_missing_at_city :
  exists more,
    trace (snd (main_iteration no_date sample_accepts None "KEY" "/pkg/dbs" "GeoLite2-City"
                  city_then_404)) =
      trace city_then_404
        ++ ConsoleLog (" > " +:+ "GeoLite2-City"
                         +:+ ": Is either missing or outdated, downloading")
        :: HttpsRequest (link None "KEY" "GeoLite2-City")
             (request_auth None "KEY" noOptions) Absent :: more
    /\ forall u a, ~ In (HttpsRequest u a (Present "HEAD")) more.
Proof.
  apply (main_iteration_skips_HEAD_when_missing no_date sample_accepts None "KEY" "/pkg/dbs"
           "GeoLite2-City" city_then_404).
  reflexivity.
Defined.

Lemma main_iteration_downloads_iff_stale_at_stale_city :
  exists d,
    trace (snd (main_iteration sample_Date_parse sample_accepts None "KEY" "/pkg/dbs" "GeoLite2-City"
                  stale_city)) = trace stale_city ++ d
    /\ ((exists a, In (HttpsRequest (link None "KEY" "GeoLite2-City") a Absent) d) <->
        js_lt (Num 1600000000000.5%Q)
          (Date_parse_value sample_Date_parse (headers head_2024 !! "last-modified"))
        = true)
    /\ (js_lt (Num 1600000000000.5%Q)
          (Date_parse_value sample_Date_parse (headers head_2024 !! "last-modified"))
        = false ->
        main_iteration sample_Date_parse sample_accepts None "KEY" "/pkg/dbs" "GeoLite2-City" stale_city =
          (Returned tt,
           emit (ConsoleLog (" > " +:+ "GeoLite2-City"
                               +:+ ": Is up to date, skipping download"))
             (snd (request sample_accepts None "KEY" (link None "KEY" "GeoLite2-City") headOptions
                     stale_city)))).
Proof.
  apply (main_iteration_downloads_iff_stale sample_Date_parse sample_accepts None "KEY" "/pkg/dbs"
           "GeoLite2-City" stale_city 1600000000000.5%Q head_2024
           (snd (request sample_accepts None "KEY" (link None "KEY" "GeoLite2-City") headOptions
                   stale_city))).
  - reflexivity.
  - reflexivity.
Defined.

Lemma main_iteration_request_failure_writes_nothing_at_404 :
  files (snd (main_iteration no_date sample_accepts None "KEY" "/pkg/dbs" "GeoLite2-City"
                nothing_then_404)) = files nothing_then_404
  /\ created (trace (snd (main_iteration no_date sample_accepts None "KEY" "/pkg/dbs" "GeoLite2-City"
                            nothing_then_404))) = created (trace nothing_then_404).
Proof.
  apply (main_iteration_request_failure_writes_nothing no_date sample_accepts None "KEY" "/pkg/dbs"
           "GeoLite2-City" nothing_then_404 (link None "KEY" "GeoLite2-City") 404
           "Not Found").
  reflexivity.
Defined.

Lemma script_stops_without_license_at_sample :
  files (script no_date sample_accepts "/pkg/scripts" (Throws "ENOENT") (Returns (Some "12345"))
           ["City"] city_then_404) = files city_then_404
  /\ tape (script no_date sample_accepts "/pkg/scripts" (Throws "ENOENT") (Returns (Some "12345"))
             ["City"] city_then_404) = tape city_then_404
  /\ exists logs,
       trace (script no_date sample_accepts "/pkg/scripts" (Throws "ENOENT") (Returns (Some "12345"))
                ["City"] city_then_404) =
         trace city_then_404 ++ logs ++ [ConsoleError licenseKeyHelp; ProcessExit 1]
       /\ Forall (fun e => exists msg, e = ConsoleError msg) logs.
Proof.
  apply (script_stops_without_license no_date sample_accepts "/pkg/scripts" (Throws "ENOENT")
           (Returns (Some "12345")) ["City"] city_then_404).
  intros key Hkey. discriminate Hkey.
Defined.


Lemma editionIds_by_membership_at_sample :
  editionIds ["ASN"; "City"; "ASN"] = editionIds ["City"; "ASN"]
  /\ List.NoDup (editionIds ["ASN"; "City"; "ASN"]).
Proof.
  apply (editionIds_by_membership ["ASN"; "City"; "ASN"] ["City"; "ASN"]).
  intros e. cbn. tauto.
Defined.

Lemma main_without_selection_at_sample :
  editionIds ["Borough"] = []
  /\ main no_date sample_accepts None "KEY" ["Borough"] "/pkg/dbs" city_then_404 =
       (Returned tt, emit (ConsoleLog "Downloading maxmind databases...") city_then_404).
Proof.
  apply (main_without_selection no_date sample_accepts None "KEY" ["Borough"] "/pkg/dbs" city_then_404).
  intros e He [Hin|[]]. subst e. cbn in He. intuition discriminate.
Defined.

Lemma link_distinguishes_editions_at_sample :
  link (Some "12345") "KEY" "GeoLite2-City" <> link (Some "12345") "KEY" "GeoLite2-ASN".
Proof.
  apply (link_distinguishes_editions (Some "12345") "KEY" "GeoLite2-City" "GeoLite2-ASN").
  discriminate.
Defined.

Lemma destination_inside_downloadPath_at_traversal :
  exists stem,
    has_slash stem = false
    /\ path_basename "../../etc/cron.d/job.mmdb" = stem +:+ ".mmdb"
    /\ destination ("/" +:+ join_with "/" ["pkg"; "dbs"]) "../../etc/cron.d/job.mmdb" =
         ("/" +:+ join_with "/" ["pkg"; "dbs"]) +:+ "/" +:+ stem +:+ ".mmdb".
Proof.
  apply (destination_inside_downloadPath ["pkg"; "dbs"] "../../etc/cron.d/job.mmdb").
  - discriminate.
  - reflexivity.
  - reflexivity.
Defined.


Lemma editionIds_are_the_selected_editions_at_sample :
  In "GeoLite2-ASN" (editionIds ["ASN"; "Borough"; "City"])
  /\ sublist (editionIds ["ASN"; "Borough"; "City"])
       ["GeoLite2-City"; "GeoLite2-Country"; "GeoLite2-ASN"]
  /\ exists a m,
       In (HttpsRequest (link None "KEY" "GeoLite2-City") a m)
         (trace (snd (main no_date sample_accepts None "KEY" ["ASN"; "Borough"; "City"]
                        "/pkg/dbs" city_then_404))).
Proof.
  destruct (editionIds_are_the_selected_editions ["ASN"; "Borough"; "City"])
    as (_ & Hmem & Hsub & Hrun).
  split; [|split; [exact Hsub|]].
  - apply Hmem. exists "ASN". cbn. auto 10.
  - destruct (Hrun no_date sample_accepts None "KEY" "/pkg/dbs" city_then_404)
      as (d & Hd & Hnext & _).
    destruct (Hnext [] "GeoLite2-City" ["GeoLite2-ASN"] eq_refl eq_refl)
      as (a & m & Hin).
    exists a, m. rewrite Hd. apply in_or_app. right. right. exact Hin.
Defined.

(** C6 as stated fails: with the selection [City] alone, the URL of the
    Country edition is requested when the server redirects there, and the
    file of the Country edition is written when the archive received holds
    an entry of that name. *)
Lemma unselected_edition_is_requested_and_written :
  let run :=
    main no_date sample_accepts None "KEY" ["City"] "/pkg/dbs"
      city_redirected_to_country in
  editionIds ["City"] = ["GeoLite2-City"]
  /\ fst run = Returned tt
  /\ In (HttpsRequest (link None "KEY" "GeoLite2-Country") None Absent) (trace (snd run))
  /\ In (CreateWriteStream (path_join ["/pkg/dbs"; "GeoLite2-Country" +:+ ".mmdb"]))
       (trace (snd run))
  /\ files city_redirected_to_country
       !! path_join ["/pkg/dbs"; "GeoLite2-Country" +:+ ".mmdb"] = None
  /\ files (snd run) !! path_join ["/pkg/dbs"; "GeoLite2-Country" +:+ ".mmdb"]
     = Some 1700000000000%Q.
Proof.
  cbv zeta. split; [reflexivity|]. split; [reflexivity|].
  split; [vm_compute; tauto|]. split; [vm_compute; tauto|].
  split; reflexivity.
Qed.

(** A redirect to a location [https.request] does not accept: the request
    fails with the [TypeError], no request is sent for the location and the
    next response is left on the network. *)
Example request_refuses_relative_location :
  request sample_accepts None "KEY" "https://a.example/" noOptions
    answers_relative_redirect =
    (Threw (InvalidUrl "/geoip/next"),
     set_tape [NetResponse ok200]
       (emit (HttpsRequest "https://a.example/" None Absent) answers_relative_redirect)).
Proof. reflexivity. Qed.

(** The disk fills up before the tar stream has ended: nothing handles the
    rejection, the process ends with status 1 and [main] is left unsettled;
    the events after the failure are not delivered. *)
Example extraction_of_disk_full_archive :
  extraction "/pkg/dbs" disk_full_archive (sample_world [] []) =
    (Pending,
     crash (Emitted "ENOSPC")
       (snd (deliver_all "/pkg/dbs"
               [EvEntry "GeoLite2-City_20240101/GeoLite2-City.mmdb"; EvOpen 0;
                EvEntry "GeoLite2-City_20240101/GeoLite2-City-Blocks.mmdb"; EvOpen 1;
                EvFinish 1]
               [] (sample_world [] []))),
     [EvEnd]).
Proof. reflexivity. Qed.

(** A truncated body: gunzip's error has no listener and ends the process. *)
Example script_on_truncated_archive :
  trace (script no_date sample_accepts "/pkg/scripts" (Returns (Some "KEY"))
           (Returns None) ["City"]
           (sample_world [NetResponse truncated_archive] [])) =
    [MkdirSync "/pkg/dbs";
     ConsoleLog "Downloading maxmind databases...";
     ConsoleLog " > GeoLite2-City: Is either missing or outdated, downloading";
     HttpsRequest
       "https://download.maxmind.com/app/geoip_download?edition_id=GeoLite2-City&license_key=KEY&suffix=tar.gz"
       None Absent;
     ConsoleLog "writing /pkg/dbs/GeoLite2-City.mmdb ...";
     CreateWriteStream "/pkg/dbs/GeoLite2-City.mmdb";
     UncaughtError (Emitted "Z_BUF_ERROR");
     ProcessExit 1].
Proof. reflexivity. Qed.

(** A write stream that cannot open its file creates nothing: the stage
    fails with the stream's error and the file system is as it was. *)
Example extraction_of_unwritable_archive :
  fst (fst (extraction "/pkg/dbs" unwritable_archive (sample_world [] []))) =
    Threw (Emitted "EISDIR")
  /\ files (snd (fst (extraction "/pkg/dbs" unwritable_archive (sample_world [] []))))
     = files (sample_world [] []).
Proof. split; reflexivity. Qed.

(** An entry whose path climbs out of the archive is written inside the
    download directory. *)
Example destination_of_traversal :
  destination "/pkg/dbs" "../../etc/cron.d/job.mmdb" = "/pkg/dbs/job.mmdb".
Proof. reflexivity. Qed.
